(** * Left-truncatable primes generator: the program of main.c and its properties

    The C program computes the n-th left-truncatable prime (LTP) with a
    Miller-Rabin primality test over fixed witness sets and a search that
    prepends digits to the LTPs kept in a circular buffer.

    The definitions come first:
    - the program, function by function, over [Z] with the wrap-around of the
      C integer types written out and an error monad for what C leaves
      undefined;
    - [FindLTP] a second time, as a transition system whose steps are the
      turns of its innermost loop, with the record numbers that follow a run
      and the check of a whole run;
    - [main], over the numbers it reads;
    - trial division, the reference for the primality test, and the
      left-truncatable primes, the reference for the search;
    - the primality test over 63-bit machine integers, which proofs evaluate
      in place of the program's.
    The lemmas follow, and the properties of the program close the file. *)

From Stdlib Require Import ZArith List Lia Bool Znumtheory Zpow_facts.
From Stdlib Require Import Uint63.
Import ListNotations.

Local Open Scope Z_scope.

(** * The program *)

(** ** Results of C computations *)

(** What a C function can do other than return a value. *)
Inductive fault : Type :=
| DivisionByZero   (* [%] with a zero divisor *)
| OutOfBounds      (* an array read or written outside its bounds *)
| NoReturnValue    (* control reached the end of a non-void function *)
| OutOfFuel.       (* a loop that did not exit within the bound given to it *)

Inductive res (A : Type) : Type :=
| ok (a : A)
| err (f : fault).

Arguments ok {A} a.
Arguments err {A} f.

Definition bind {A B : Type} (m : res A) (k : A -> res B) : res B :=
  match m with
  | ok a => k a
  | err f => err f
  end.

Notation "x <- m ;; k" := (bind m (fun x => k))
  (at level 61, m at next level, right associativity).

(** ** Fixed-width unsigned integers *)

Definition wrap (w x : Z) : Z := x mod 2 ^ w.

Definition u8 : Z -> Z := wrap 8.
Definition u16 : Z -> Z := wrap 16.
Definition u32 : Z -> Z := wrap 32.
Definition u64 : Z -> Z := wrap 64.

(** [a % b] on unsigned operands. *)
Definition umod (a b : Z) : res Z :=
  if b =? 0 then err DivisionByZero else ok (a mod b).

(** [((a % m) * (b % m)) % m] on [uint64_t] operands: the product is taken in
    64 bits. *)
Definition mulmod64 (a b m : Z) : res Z :=
  a' <- umod a m ;;
  b' <- umod b m ;;
  umod (u64 (a' * b')) m.

(** ** ModulusPow *)

(** The [while (exp > 0)] loop.  [exp] loses a bit at every turn, so [fuel]
    bounds the turns by the width of [exp]. *)
Fixpoint ModulusPow_loop (fuel : nat) (base exp md result : Z) : res Z :=
  if 0 <? exp then
    match fuel with
    | O => err OutOfFuel
    | S fuel' =>
        result' <- (if Z.land exp 1 =? 0 then ok result
                    else mulmod64 result base md) ;;
        base' <- mulmod64 base base md ;;
        ModulusPow_loop fuel' base' (Z.shiftr exp 1) md result'
    end
  else ok result.

Definition ModulusPow (base exp md : Z) : res Z :=
  let base := u64 base in
  let exp := u64 exp in
  let md := u64 md in
  base' <- umod base md ;;
  ModulusPow_loop 64 base' exp md 1.

(** ** IsEven and Power *)

Definition IsEven (val : Z) : bool :=
  let val := u32 val in
  if val mod 2 =? 0 then true else false.

(** The [for (i = 1; i < n; i++)] loop of [Power], [count] turns. *)
Fixpoint Power_loop (count : nat) (val OldVal : Z) : Z :=
  match count with
  | O => val
  | S count' => Power_loop count' (u32 (val * OldVal)) OldVal
  end.

Definition Power (val n : Z) : Z :=
  let val := u32 val in
  let n := u8 n in
  if n =? 0 then 1 else Power_loop (Z.to_nat (n - 1)) val val.

(** ** MillerRabin *)

(** The [while (IsEven(d))] loop: returns [d] and [s] at its exit.  A nonzero
    32-bit [d] turns odd within 32 halvings; [d = 0] stays even for ever. *)
Fixpoint MillerRabin_halve (fuel : nat) (d s : Z) : res (Z * Z) :=
  if IsEven d then
    match fuel with
    | O => err OutOfFuel
    | S fuel' => MillerRabin_halve fuel' (Z.shiftr d 1) (u16 (s + 1))
    end
  else ok (d, s).

(** How the [for (i = 1; i < s; i++)] loop is left. *)
Inductive squaring_exit : Type :=
| FoundOne            (* [x == 1]: the function returns false *)
| LoopEnd (i : Z).    (* [break], or [i < s] failed: [i] at that point *)

(** [count] is the number of turns left before [i < s] fails. *)
Fixpoint MillerRabin_square (count : nat) (x n i : Z) : res squaring_exit :=
  match count with
  | O => ok (LoopEnd i)
  | S count' =>
      x' <- mulmod64 x x n ;;
      if x' =? 1 then ok FoundOne
      else if x' =? u64 (n - 1) then ok (LoopEnd i)
      else MillerRabin_square count' x' n (u16 (i + 1))
  end.

Definition read (l : list Z) (idx : Z) : res Z :=
  if idx <? 0 then err OutOfBounds
  else match nth_error l (Z.to_nat idx) with
       | Some x => ok x
       | None => err OutOfBounds
       end.

(** The [while (k)] loop: the guesses are taken from [g[k-1]] down to
    [g[0]]. *)
Fixpoint MillerRabin_witnesses (k : nat) (n : Z) (g : list Z) (d s : Z)
  : res bool :=
  match k with
  | O => ok true
  | S k' =>
      a <- read g (Z.of_nat k') ;;
      x <- ModulusPow a d n ;;
      if (x =? 1) || (x =? u64 (n - 1)) then MillerRabin_witnesses k' n g d s
      else
        e <- MillerRabin_square (Z.to_nat (s - 1)) x n 1 ;;
        match e with
        | FoundOne => ok false
        | LoopEnd i =>
            if i =? s then ok false else MillerRabin_witnesses k' n g d s
        end
  end.

Definition MillerRabin (n : Z) (g : list Z) (k : Z) : res bool :=
  let n := u64 n in
  let k := u8 k in
  ds <- MillerRabin_halve 32 (u32 (n - 1)) 0 ;;
  MillerRabin_witnesses (Z.to_nat k) n g (fst ds) (snd ds).

(** ** IsPrime *)

(** [IsPrime], with the primality test it wraps as a parameter. *)
Definition IsPrime_with (MR : Z -> list Z -> Z -> res bool) (n : Z)
  : res bool :=
  let n := u32 n in
  if (n mod 2 =? 0) || (n <=? 1) then ok false
  else if n <? 2047 then MR n [2] 1
  else if n <? 1373653 then MR n [2; 3] 2
  else if n <? 9080191 then MR n [31; 73] 2
  else if n <? 25326001 then MR n [2; 3; 5] 3
  else if n <? 4759123141 then MR n [2; 7; 61] 3
  else err NoReturnValue.

Definition IsPrime : Z -> res bool := IsPrime_with MillerRabin.

(** ** FindLTP *)

Definition BUF_LENGTH : Z := 680.

(** The local variables of [FindLTP] that live across the turns of its
    loops. *)
Record locals : Type := mkLocals {
  LTP_Buf : list Z;
  PwVal : Z;
  LTP_IndexProc : Z;
  LTP_IndexFree : Z;
  LTP_IndexOldFree : Z;
  u : Z;
  i : Z;
  order : Z;
  PrimesCount : Z
}.

(** [LTP_Buf[idx] = x]. *)
Fixpoint write_nth (l : list Z) (idx : nat) (x : Z) : option (list Z) :=
  match l, idx with
  | [], _ => None
  | _ :: t, O => Some (x :: t)
  | h :: t, S idx' =>
      match write_nth t idx' x with
      | Some t' => Some (h :: t')
      | None => None
      end
  end.

Definition write (l : list Z) (idx x : Z) : res (list Z) :=
  if idx <? 0 then err OutOfBounds
  else match write_nth l (Z.to_nat idx) x with
       | Some l' => ok l'
       | None => err OutOfBounds
       end.

(** A cursor after [++] and the test against [BUF_LENGTH]. *)
Definition next_index (idx : Z) : Z :=
  let idx' := u16 (idx + 1) in
  if BUF_LENGTH <=? idx' then 0 else idx'.

Definition initial_buffer : list Z :=
  [2; 3; 5; 7] ++ repeat 0 (Z.to_nat (BUF_LENGTH - 4)).

Definition initial_locals : locals :=
  {| LTP_Buf := initial_buffer;
     PwVal := 0;
     LTP_IndexProc := 0;
     LTP_IndexFree := 4;
     LTP_IndexOldFree := 0;
     u := 0;
     i := 0;
     order := 0;
     PrimesCount := 4 |}.

(** Assignments to the locals. *)
Definition set_u (c : locals) (x : Z) : locals :=
  {| LTP_Buf := LTP_Buf c; PwVal := PwVal c;
     LTP_IndexProc := LTP_IndexProc c; LTP_IndexFree := LTP_IndexFree c;
     LTP_IndexOldFree := LTP_IndexOldFree c;
     u := x; i := i c; order := order c; PrimesCount := PrimesCount c |}.

Definition set_i (c : locals) (x : Z) : locals :=
  {| LTP_Buf := LTP_Buf c; PwVal := PwVal c;
     LTP_IndexProc := LTP_IndexProc c; LTP_IndexFree := LTP_IndexFree c;
     LTP_IndexOldFree := LTP_IndexOldFree c;
     u := u c; i := x; order := order c; PrimesCount := PrimesCount c |}.

Definition set_LTP_IndexProc (c : locals) (x : Z) : locals :=
  {| LTP_Buf := LTP_Buf c; PwVal := PwVal c;
     LTP_IndexProc := x; LTP_IndexFree := LTP_IndexFree c;
     LTP_IndexOldFree := LTP_IndexOldFree c;
     u := u c; i := i c; order := order c; PrimesCount := PrimesCount c |}.

Definition set_PrimesCount (c : locals) (x : Z) : locals :=
  {| LTP_Buf := LTP_Buf c; PwVal := PwVal c;
     LTP_IndexProc := LTP_IndexProc c; LTP_IndexFree := LTP_IndexFree c;
     LTP_IndexOldFree := LTP_IndexOldFree c;
     u := u c; i := i c; order := order c; PrimesCount := x |}.

(** [LTP_Buf = buf; LTP_IndexFree = x;], the two effects of a store. *)
Definition set_stored (c : locals) (buf : list Z) (x : Z) : locals :=
  {| LTP_Buf := buf; PwVal := PwVal c;
     LTP_IndexProc := LTP_IndexProc c; LTP_IndexFree := x;
     LTP_IndexOldFree := LTP_IndexOldFree c;
     u := u c; i := i c; order := order c; PrimesCount := PrimesCount c |}.

(** [PwVal = Power(10, ++order); LTP_IndexOldFree = LTP_IndexFree;] *)
Definition enter_order (c : locals) : locals :=
  let order' := u16 (order c + 1) in
  {| LTP_Buf := LTP_Buf c; PwVal := Power 10 order';
     LTP_IndexProc := LTP_IndexProc c; LTP_IndexFree := LTP_IndexFree c;
     LTP_IndexOldFree := LTP_IndexFree c;
     u := u c; i := i c; order := order'; PrimesCount := PrimesCount c |}.

(** A bound on the turns of the innermost loop in a whole call: nine orders
    of nine digits each, and for each digit at most [BUF_LENGTH] turns and
    the test that ends them. *)
Definition search_fuel : nat := Z.to_nat (9 * 9 * (BUF_LENGTH + 1)).

Section Search.

(** The primality test the search calls. *)
Variable isprime : Z -> res bool.

(** The [for (v = 1; v < 10; v++)] loop: [v] at its exit, 10 when no digit
    gives a prime.  [count] is the number of turns left. *)
Fixpoint extend_loop (count : nat) (num PwValN v : Z) : res Z :=
  match count with
  | O => ok v
  | S count' =>
      p <- isprime (u32 (num + u32 (PwValN * v))) ;;
      if p then ok v else extend_loop count' num PwValN (u16 (v + 1))
  end.

(** [LTP_Buf[u] + i * PwVal], the number tested in a turn of the innermost
    loop. *)
Definition candidate (c : locals) : res Z :=
  x <- read (LTP_Buf c) (u c) ;;
  ok (u32 (x + u32 (i c * PwVal c))).

(** The body of the loop over [u]: it returns the candidate when it is the
    prime number [LTP_n], and otherwise goes back to the loop test, having
    stored the candidate if it is prime and the test accepts the 32-bit sum
    of the candidate and a digit before it. *)
Definition loop_body (LTP_n : Z) (c : locals) : res (Z + locals) :=
  num <- candidate c ;;
  let c := set_u c (next_index (u c)) in
  p <- isprime num ;;
  if p then
    let c := set_PrimesCount c (u16 (PrimesCount c + 1)) in
    if PrimesCount c =? LTP_n then ok (inl num)
    else
      let PwValN := Power 10 (order c + 1) in
      v <- extend_loop 9 num PwValN 1 ;;
      if v <? 10 then
        buf <- write (LTP_Buf c) (LTP_IndexFree c) num ;;
        ok (inr (set_stored c buf (next_index (LTP_IndexFree c))))
      else ok (inr c)
  else ok (inr c).

(** The loop [for (u = LTP_IndexProc; u != LTP_IndexOldFree; )], from its
    test: [inl] is a [return] from the function, [inr] the locals at the
    exit of the loop.  The loop that contains it sets [u] first. *)
Fixpoint loop_u (fuel : nat) (LTP_n : Z) (c : locals) : res (Z + locals) :=
  if u c =? LTP_IndexOldFree c then ok (inr c)
  else
    match fuel with
    | O => err OutOfFuel
    | S fuel' =>
        r <- loop_body LTP_n c ;;
        match r with
        | inl v => ok (inl v)
        | inr c' => loop_u fuel' LTP_n c'
        end
    end.

(** The loop [for (i = 1; i < 10; i++)], from its test; [i] starts at 1, so
    it takes nine turns.  The loop over [u] gets the bound of the whole
    search. *)
Fixpoint loop_i (fuel : nat) (LTP_n : Z) (c : locals) : res (Z + locals) :=
  if i c <? 10 then
    match fuel with
    | O => err OutOfFuel
    | S fuel' =>
        r <- loop_u search_fuel LTP_n (set_u c (LTP_IndexProc c)) ;;
        match r with
        | inl v => ok (inl v)
        | inr c' => loop_i fuel' LTP_n (set_i c' (u16 (i c' + 1)))
        end
    end
  else ok (inr c).

(** The loop [while (order < 9)], from its test, and the [return 0] after
    it; [order] starts at 0, so it takes nine turns. *)
Fixpoint loop_order (fuel : nat) (LTP_n : Z) (c : locals) : res Z :=
  if order c <? 9 then
    match fuel with
    | O => err OutOfFuel
    | S fuel' =>
        r <- loop_i 9 LTP_n (set_i (enter_order c) 1) ;;
        match r with
        | inl v => ok v
        | inr c' =>
            loop_order fuel' LTP_n
              (set_LTP_IndexProc c' (LTP_IndexOldFree c'))
        end
    end
  else ok 0.

Definition FindLTP_with (LTP_n : Z) : res Z :=
  let LTP_n := u16 LTP_n in
  if LTP_n <=? 4 then read initial_buffer (LTP_n - 1)
  else loop_order 9 LTP_n initial_locals.

(** *** The search as a transition system

    The same function, one turn of the innermost loop at a time.  Between
    two steps control stands at the test [u != LTP_IndexOldFree] (line 206
    of main.c), and a step is what the function does from one evaluation of
    that test to the next:
    - when the test holds, the loop body (lines 208 to 235), which may
      return;
    - when it fails, [i++] and the test [i < 10] (line 204), and after the
      last digit [LTP_IndexProc = LTP_IndexOldFree] (line 238), the test
      [order < 9] (line 198) and the start of the next order (lines 201 to
      206), or [return 0] (line 242).
    [FindLTP_steps_eq] below proves the two the same. *)

(** From the test of [while (order < 9)] to the first test of the loop over
    [u]: the next order starts, or the function returns 0. *)
Definition start_order (c : locals) : Z + locals :=
  if order c <? 9 then
    let c1 := set_i (enter_order c) 1 in
    inr (set_u c1 (LTP_IndexProc c1))
  else inl 0.

(** The loop over [u] is left: the next digit [i], or, after the last one,
    [LTP_IndexProc = LTP_IndexOldFree] and the next order. *)
Definition next_digit (c : locals) : Z + locals :=
  let c1 := set_i c (u16 (i c + 1)) in
  if i c1 <? 10 then inr (set_u c1 (LTP_IndexProc c1))
  else start_order (set_LTP_IndexProc c1 (LTP_IndexOldFree c1)).

(** One evaluation of the test [u != LTP_IndexOldFree] and what follows it,
    up to the next evaluation of that test or to a [return]. *)
Definition step (LTP_n : Z) (c : locals) : res (Z + locals) :=
  if u c =? LTP_IndexOldFree c then ok (next_digit c)
  else loop_body LTP_n c.

Fixpoint run (LTP_n : Z) (fuel : nat) (c : locals) : res Z :=
  match fuel with
  | O => err OutOfFuel
  | S fuel' =>
      r <- step LTP_n c ;;
      match r with
      | inl v => ok v
      | inr c' => run LTP_n fuel' c'
      end
  end.

Definition FindLTP_steps (LTP_n : Z) : res Z :=
  let LTP_n := u16 LTP_n in
  if LTP_n <=? 4 then read initial_buffer (LTP_n - 1)
  else
    match start_order initial_locals with
    | inl v => ok v
    | inr c => run LTP_n search_fuel c
    end.

(** The rest of [FindLTP] from a test of the loop over [u]: the rest of
    that loop, of the loop over [i] and of the loop over [order], with a
    bound for each. *)
Definition finish (fu fi fo : nat) (LTP_n : Z) (c : locals) : res Z :=
  r1 <- loop_u fu LTP_n c ;;
  match r1 with
  | inl v => ok v
  | inr c1 =>
      r2 <- loop_i fi LTP_n (set_i c1 (u16 (i c1 + 1))) ;;
      match r2 with
      | inl v => ok v
      | inr c2 =>
          loop_order fo LTP_n (set_LTP_IndexProc c2 (LTP_IndexOldFree c2))
      end
  end.

(** *** Record numbers

    The records of the buffer are numbered in the order they are written: the
    seeds are records 0 to 3 and every store writes the next number.  Record
    [k] goes to slot [k mod BUF_LENGTH], so a store of record [k] replaces
    record [k - BUF_LENGTH].  A [tally] follows a run and holds the number of
    the record under each cursor; it is not part of the program's state. *)
Record tally : Type := mkTally {
  written : Z;      (* records written so far: the number the next store gets *)
  proc_no : Z;      (* the record at [LTP_IndexProc] *)
  oldfree_no : Z;   (* the record at [LTP_IndexOldFree] *)
  u_no : Z          (* the record at [u] *)
}.

(** The tally after the step from [c] to [c']. *)
Definition follow (c c' : locals) (t : tally) : tally :=
  if u c =? LTP_IndexOldFree c then
    if u16 (i c + 1) <? 10 then
      {| written := written t; proc_no := proc_no t;
         oldfree_no := oldfree_no t; u_no := proc_no t |}
    else
      {| written := written t; proc_no := oldfree_no t;
         oldfree_no := written t; u_no := oldfree_no t |}
  else
    {| written := if LTP_IndexFree c' =? LTP_IndexFree c then written t
                  else written t + 1;
       proc_no := proc_no t;
       oldfree_no := oldfree_no t;
       u_no := u_no t + 1 |}.

(** The first record that is still to be read: the records of the current
    order are read once for each digit, so before the last digit it is the
    first record of the order, and during the last digit the record at
    [u]. *)
Definition first_unread (c : locals) (t : tally) : Z :=
  if i c =? 9 then u_no t else proc_no t.

(** The number of records written and still to be read. *)
Definition live (c : locals) (t : tally) : Z := written t - first_unread c t.

(** The tally holds the record numbers of the cursors: record [k] is in
    slot [k mod BUF_LENGTH]. *)
Definition cursors_agree (c : locals) (t : tally) : Prop :=
  LTP_IndexFree c = written t mod BUF_LENGTH
  /\ LTP_IndexProc c = proc_no t mod BUF_LENGTH
  /\ LTP_IndexOldFree c = oldfree_no t mod BUF_LENGTH
  /\ u c = u_no t mod BUF_LENGTH.

(** The locals and tallies a run for [LTP_n] goes through from [c], [t]. *)
Inductive reaches (LTP_n : Z) : locals -> tally -> locals -> tally -> Prop :=
| reaches_here (c : locals) (t : tally) : reaches LTP_n c t c t
| reaches_step (c c1 c' : locals) (t t' : tally) :
    step LTP_n c = ok (inr c1) ->
    reaches LTP_n c1 (follow c c1 t) c' t' ->
    reaches LTP_n c t c' t'.

(** The locals and the tally after [k] steps, when the run goes that far. *)
Fixpoint advance (LTP_n : Z) (k : nat) (c : locals) (t : tally)
  : option (locals * tally) :=
  match k with
  | O => Some (c, t)
  | S k' =>
      match step LTP_n c with
      | ok (inr c') => advance LTP_n k' c' (follow c c' t)
      | _ => None
      end
  end.

(** *** Checking a whole run

    [sweep T fuel c t last] follows the run for index [T] from [c] and checks
    that at most [BUF_LENGTH] records are live at every point, that every
    prime counted is above the one before ([last] at the start), and that the
    run returns the prime number [T]. *)
Fixpoint sweep (T : Z) (fuel : nat) (c : locals) (t : tally) (last : Z)
  : bool :=
  match fuel with
  | O => false
  | S fuel' =>
      (live c t <=? BUF_LENGTH) &&
      match step T c with
      | ok (inl v) => (last <? v) && (u16 (PrimesCount c + 1) =? T)
      | ok (inr c') =>
          if PrimesCount c' =? PrimesCount c then
            sweep T fuel' c' (follow c c' t) last
          else
            match candidate c with
            | ok num => (last <? num) && sweep T fuel' c' (follow c c' t) num
            | err _ => false
            end
      | err _ => false
      end
  end.

(** [finishes fuel c]: the run from [c] for index 0, which no count
    reaches, comes within [fuel] steps to the [return 0] that follows the
    last order. *)
Fixpoint finishes (fuel : nat) (c : locals) : bool :=
  match fuel with
  | O => false
  | S fuel' =>
      match step 0 c with
      | ok (inl _) => u c =? LTP_IndexOldFree c
      | ok (inr c') => finishes fuel' c'
      | err _ => false
      end
  end.

End Search.

Definition FindLTP : Z -> res Z := FindLTP_with IsPrime.

(** The locals at the first test of the loop over [u], and their tally. *)
Definition first_locals : locals :=
  match start_order initial_locals with
  | inr c => c
  | inl _ => initial_locals
  end.

Definition first_tally : tally :=
  {| written := 4; proc_no := 0; oldfree_no := 4; u_no := 0 |}.

(** The locals after the first step of the call [FindLTP(6)], which tests
    12. *)
Definition second_locals : locals :=
  match step IsPrime 6 first_locals with
  | ok (inr c) => c
  | _ => first_locals
  end.

(** The locals and tallies the call [FindLTP(LTP_n)] goes through, taken at
    the tests of its innermost loop: none when the answer is a seed. *)
Definition visits (LTP_n : Z) (c : locals) (t : tally) : Prop :=
  4 < u16 LTP_n /\ reaches IsPrime (u16 LTP_n) first_locals first_tally c t.

(** *** The primes a run counts *)

(** [collect isprime T fuel c]: the primes the run for index [T] counts from
    [c], in the order it counts them, the last one the prime it returns;
    [None] when the run does not return the prime number [T] within [fuel]
    steps. *)
Fixpoint collect (isprime : Z -> res bool) (T : Z) (fuel : nat) (c : locals)
  : option (list Z) :=
  match fuel with
  | O => None
  | S fuel' =>
      match step isprime T c with
      | ok (inl v) => if u16 (PrimesCount c + 1) =? T then Some [v] else None
      | ok (inr c') =>
          if PrimesCount c' =? PrimesCount c then collect isprime T fuel' c'
          else
            match candidate c, collect isprime T fuel' c' with
            | ok num, Some L => Some (num :: L)
            | _, _ => None
            end
      | err _ => None
      end
  end.

(** [drains isprime bound fuel c]: the run from [c] for index 0 comes within
    [fuel] steps to the [return 0] that follows the last order, with [bound]
    primes counted by then and never more on the way. *)
Fixpoint drains (isprime : Z -> res bool) (bound : Z) (fuel : nat)
  (c : locals) : bool :=
  match fuel with
  | O => false
  | S fuel' =>
      match step isprime 0 c with
      | ok (inl v) =>
          (u c =? LTP_IndexOldFree c) && (v =? 0) && (PrimesCount c =? bound)
      | ok (inr c') =>
          (PrimesCount c' <=? bound) && drains isprime bound fuel' c'
      | err _ => false
      end
  end.

(** [stored_at isprime LTP_n k]: the value that step number [k] of the run
    for index [LTP_n] stores in the buffer, with the order at that step;
    [None] when the run does not go that far or the step stores nothing. *)
Definition stored_at (isprime : Z -> res bool) (LTP_n : Z) (k : nat)
  : option (Z * Z) :=
  match advance isprime LTP_n k first_locals first_tally with
  | Some (c, _) =>
      match step isprime LTP_n c with
      | ok (inr c') =>
          if LTP_IndexFree c' =? LTP_IndexFree c then None
          else
            match read (LTP_Buf c') (LTP_IndexFree c) with
            | ok x => Some (x, order c)
            | err _ => None
            end
      | _ => None
      end
  | None => None
  end.

(** ** main

    [main] asks for a number until the one it reads is between 1 and 2166 and
    prints the result of [FindLTP] on it.  [entries] are the values [num]
    holds after the successive calls of [scanf], and the result is the number
    printed; the clock readings and the time printed are left out. *)

(** The [do ... while ((num > 2166) || (num < 1))] loop: [num] at its exit.
    When no entry is in range the loop is still asking at the end of
    [entries]. *)
Fixpoint main_input (entries : list Z) : res Z :=
  match entries with
  | [] => err OutOfFuel
  | e :: rest =>
      let num := u32 e in
      if (2166 <? num) || (num <? 1) then main_input rest else ok num
  end.

Definition main (entries : list Z) : res Z :=
  num <- main_input entries ;;
  FindLTP num.

(** * Trial division, the reference for the primality test *)

(** No [d' >= d] with [d' * d' <= n] divides [n]. *)
Fixpoint no_divisor (count : nat) (d n : Z) : bool :=
  match count with
  | O => true
  | S count' =>
      if n <? d * d then true
      else if n mod d =? 0 then false
      else no_divisor count' (d + 1) n
  end.

Definition trial_division (n : Z) : bool :=
  (1 <? n) && no_divisor (Z.to_nat n) 2 n.

(** The test [isprime] and trial division give the same verdict on the
    [count] numbers from [n] on. *)
Fixpoint agrees (isprime : Z -> res bool) (count : nat) (n : Z) : bool :=
  match count with
  | O => true
  | S count' =>
      match isprime n with
      | ok b => Bool.eqb b (trial_division n)
      | err _ => false
      end
      && agrees isprime count' (n + 1)
  end.

(** * Left-truncatable primes, the reference for the search *)

(** [left_truncatable digits v]: [v] is written with [digits] decimal digits,
    and [v] and every number left by removing digits from its left are prime;
    so no digit of [v] is zero.  The number of no digits is 0. *)
Fixpoint left_truncatable (digits : nat) (v : Z) : Prop :=
  match digits with
  | O => v = 0
  | S d =>
      10 ^ Z.of_nat d <= v < 10 ^ Z.of_nat (S d)
      /\ prime v
      /\ left_truncatable d (v mod 10 ^ Z.of_nat d)
  end.

(** The numbers of [d + 1] digits made of a digit from 1 to 9 before a
    number of [L], that [p] accepts. *)
Definition extend (p : Z -> bool) (d : nat) (L : list Z) : list Z :=
  flat_map (fun i => filter p (map (fun x => i * 10 ^ Z.of_nat d + x) L))
           [1; 2; 3; 4; 5; 6; 7; 8; 9].

(** The left-truncatable primes of [digits] digits, with [p] for the
    primality test. *)
Fixpoint level (p : Z -> bool) (digits : nat) : list Z :=
  match digits with
  | O => [0]
  | S d => extend p d (level p d)
  end.

(** Those of one to [digits] digits. *)
Definition ltps (p : Z -> bool) (digits : nat) : list Z :=
  flat_map (level p) (seq 1 digits).

(** [x] fits the result type of [FindLTP]. *)
Definition fits_u32 (x : Z) : bool := x <? 2 ^ 32.

(** The left-truncatable primes below [2 ^ 32]; they have at most ten
    digits. *)
Definition ltps_32 : list Z := filter fits_u32 (ltps trial_division 10).

(** * The primality test on machine integers

    The same test with the modular multiplications done on 63-bit machine
    integers: a double-word product and a double-word division replace the
    bit-by-bit arithmetic of [Z].  It is proved equal to [IsPrime] below and
    is what proofs evaluate when they run the search. *)

Definition mulmod63 (a b m : int) : int :=
  let (h, l) := mulc a b in snd (diveucl_21 h l m).

Fixpoint ModulusPow63_loop (fuel : nat) (base exp md result : int) : int :=
  if (0 <? exp)%uint63 then
    match fuel with
    | O => result
    | S fuel' =>
        let result' := if (exp mod 2 =? 0)%uint63 then result
                       else mulmod63 result base md in
        let base' := mulmod63 base base md in
        ModulusPow63_loop fuel' base' (exp / 2)%uint63 md result'
    end
  else result.

Definition ModulusPow63 (base exp md : int) : int :=
  ModulusPow63_loop 64 (base mod md)%uint63 exp md 1%uint63.

Fixpoint halve63 (fuel : nat) (d : int) (s : Z) : int * Z :=
  if (d mod 2 =? 0)%uint63 then
    match fuel with
    | O => (d, s)
    | S fuel' => halve63 fuel' (d / 2)%uint63 (u16 (s + 1))
    end
  else (d, s).

Fixpoint square63 (count : nat) (x n : int) (i : Z) : squaring_exit :=
  match count with
  | O => LoopEnd i
  | S count' =>
      let x' := mulmod63 x x n in
      if (x' =? 1)%uint63 then FoundOne
      else if (x' =? n - 1)%uint63 then LoopEnd i
      else square63 count' x' n (u16 (i + 1))
  end.

Fixpoint witnesses63 (k : nat) (n : int) (g : list Z) (d : int) (s : Z)
  : res bool :=
  match k with
  | O => ok true
  | S k' =>
      a <- read g (Z.of_nat k') ;;
      let x := ModulusPow63 (of_Z a) d n in
      if ((x =? 1) || (x =? n - 1))%uint63 then witnesses63 k' n g d s
      else
        match square63 (Z.to_nat (s - 1)) x n 1 with
        | FoundOne => ok false
        | LoopEnd i =>
            if i =? s then ok false else witnesses63 k' n g d s
        end
  end.

Definition MillerRabin63 (n : Z) (g : list Z) (k : Z) : res bool :=
  let n' := of_Z n in
  let ds := halve63 32 (n' - 1)%uint63 0 in
  witnesses63 (Z.to_nat (u8 k)) n' g (fst ds) (snd ds).

Definition IsPrime63 : Z -> res bool := IsPrime_with MillerRabin63.

(** Trial division on machine integers, for numbers below [2 ^ 40]; [count]
    bounds the divisors tried. *)
Fixpoint no_divisor63 (count : nat) (d n : int) : bool :=
  match count with
  | O => true
  | S count' =>
      if (n <? d * d)%uint63 then true
      else if (n mod d =? 0)%uint63 then false
      else no_divisor63 count' (d + 1)%uint63 n
  end.

Definition trial_division63 (count : nat) (n : Z) : bool :=
  if (0 <=? n) && (n <? 2 ^ 40) then
    (1 <? n) && no_divisor63 count 2 (of_Z n)
  else trial_division n.

(** * Lemmas *)

(** ** Fixed-width integers and ModulusPow *)

Lemma wrap_small (w x : Z) : 0 <= x < 2 ^ w -> wrap w x = x.
Proof. intro H. unfold wrap. now apply Z.mod_small. Qed.

Lemma wrap_range (w x : Z) : 0 <= w -> 0 <= wrap w x < 2 ^ w.
Proof. intro H. unfold wrap. apply Z.mod_pos_bound. now apply Z.pow_pos_nonneg. Qed.

Lemma wrap_wrap (w x : Z) : wrap w (wrap w x) = wrap w x.
Proof. unfold wrap. apply Zmod_mod. Qed.

Lemma u32_range (x : Z) : 0 <= u32 x < 4294967296.
Proof. apply (wrap_range 32 x). lia. Qed.

Lemma u32_small (x : Z) : 0 <= x < 4294967296 -> u32 x = x.
Proof. apply (wrap_small 32 x). Qed.

Lemma u64_small (x : Z) : 0 <= x < 18446744073709551616 -> u64 x = x.
Proof. apply (wrap_small 64 x). Qed.

Lemma u16_small (x : Z) : 0 <= x < 65536 -> u16 x = x.
Proof. apply (wrap_small 16 x). Qed.

Lemma u8_small (x : Z) : 0 <= x < 256 -> u8 x = x.
Proof. apply (wrap_small 8 x). Qed.

Lemma u16_range (x : Z) : 0 <= u16 x < 65536.
Proof. apply (wrap_range 16 x). lia. Qed.

Lemma u16_succ_neq (x : Z) : u16 (x + 1) <> x.
Proof.
  unfold u16, wrap. change (2 ^ 16) with 65536. intro H.
  pose proof (Z.div_mod (x + 1) 65536 ltac:(lia)). lia.
Qed.

Lemma u16_succ_le (x : Z) : 0 <= x -> u16 (x + 1) <= x + 1.
Proof.
  intro H. unfold u16, wrap. change (2 ^ 16) with 65536.
  apply Z.mod_le; lia.
Qed.

Lemma u16_u16 (x : Z) : u16 (u16 x) = u16 x.
Proof. apply wrap_wrap. Qed.

Lemma u16_ge (x : Z) : x < 65536 -> x <= u16 x.
Proof.
  intro H. unfold u16, wrap. change (2 ^ 16) with 65536.
  destruct (Z.lt_ge_cases x 0).
  - pose proof (Z.mod_pos_bound x 65536 ltac:(lia)). lia.
  - rewrite Z.mod_small; lia.
Qed.

Lemma umod_ok (a m : Z) : m <> 0 -> umod a m = ok (a mod m).
Proof.
  intro H. unfold umod. destruct (Z.eqb_spec m 0); [contradiction | reflexivity].
Qed.

(** For a modulus of at most 32 bits the 64-bit product does not wrap, and
    [mulmod64] is the product modulo [m]. *)
Lemma mulmod64_spec (a b m : Z) :
  0 < m <= 4294967296 -> mulmod64 a b m = ok ((a * b) mod m).
Proof.
  intros Hm. unfold mulmod64.
  rewrite !umod_ok by lia. cbn [bind].
  rewrite umod_ok by lia. f_equal.
  pose proof (Z.mod_pos_bound a m ltac:(lia)).
  pose proof (Z.mod_pos_bound b m ltac:(lia)).
  rewrite u64_small by nia.
  symmetry. apply Z.mul_mod. lia.
Qed.

(** The low bit and the right shift, as arithmetic. *)
Lemma land_1_mod (e : Z) : Z.land e 1 = e mod 2.
Proof. change 1 with (Z.ones 1). rewrite Z.land_ones by lia. reflexivity. Qed.

Lemma shiftr_1_div (e : Z) : Z.shiftr e 1 = e / 2.
Proof. rewrite Z.shiftr_div_pow2 by lia. reflexivity. Qed.

(** The loop of [ModulusPow], for a modulus of at most 32 bits: when the
    exponent is not zero the result is reduced, and it is
    [result * base ^ exp] modulo [md]. *)
Lemma ModulusPow_loop_spec (fuel : nat) :
  forall base exp md result,
    0 < md <= 4294967296 ->
    0 <= exp < 2 ^ Z.of_nat fuel ->
    ModulusPow_loop fuel base exp md result
    = ok (if exp =? 0 then result else (result * base ^ exp) mod md).
Proof.
  induction fuel as [| fuel IH]; intros base exp md result Hm He.
  - assert (exp = 0) by (cbn in He; lia). subst exp. reflexivity.
  - cbn [ModulusPow_loop].
    destruct (Z.ltb_spec 0 exp) as [Hpos | Hz].
    2:{ assert (exp = 0) by lia. subst exp. reflexivity. }
    rewrite land_1_mod, shiftr_1_div.
    rewrite !mulmod64_spec by exact Hm.
    assert (Hdm : exp = 2 * (exp / 2) + exp mod 2) by (apply Z.div_mod; lia).
    assert (Hbit : 0 <= exp mod 2 < 2) by (apply Z.mod_pos_bound; lia).
    assert (Hhalf : 0 <= exp / 2 < 2 ^ Z.of_nat fuel).
    { rewrite Nat2Z.inj_succ, Z.pow_succ_r in He by lia. lia. }
    assert (Hsq : forall r, (r * ((base * base) mod md) ^ (exp / 2)) mod md
                            = (r * base ^ (2 * (exp / 2))) mod md).
    { intro r. rewrite Z.mul_mod by lia. rewrite Z.mod_pow_l.
      rewrite <- Z.mul_mod by lia. f_equal. f_equal.
      rewrite Z.pow_mul_r by lia. f_equal. lia. }
    destruct (Z.eqb_spec (exp mod 2) 0) as [Hb | Hb]; cbn [bind].
    + rewrite IH by assumption.
      destruct (Z.eqb_spec exp 0) as [? | _]; [lia |].
      destruct (Z.eqb_spec (exp / 2) 0) as [? | _]; [lia |].
      f_equal. rewrite Hsq. f_equal. f_equal. f_equal. lia.
    + rewrite IH by assumption.
      destruct (Z.eqb_spec exp 0) as [? | _]; [lia |].
      assert (Hexp : base ^ exp = base * base ^ (2 * (exp / 2))).
      { replace exp with (1 + 2 * (exp / 2)) at 1 by lia.
        rewrite Z.pow_add_r by lia. now rewrite Z.pow_1_r. }
      destruct (Z.eqb_spec (exp / 2) 0) as [Hq | _].
      * f_equal. rewrite Hexp, Hq. cbn. f_equal. lia.
      * f_equal. rewrite Hsq, Hexp.
        rewrite Z.mul_mod_idemp_l by lia. f_equal. lia.
Qed.

(** [ModulusPow] on 64-bit operands with a modulus of at most 32 bits. *)
Lemma ModulusPow_spec (base exp md : Z) :
  0 <= base < 2 ^ 64 -> 0 <= exp < 2 ^ 64 -> 0 < md <= 2 ^ 32 ->
  ModulusPow base exp md
  = ok (if exp =? 0 then 1 else (base ^ exp) mod md).
Proof.
  intros Hb He Hm. unfold ModulusPow.
  rewrite !u64_small by lia.
  rewrite umod_ok by lia. cbn [bind].
  rewrite ModulusPow_loop_spec by (cbn; lia).
  destruct (Z.eqb_spec exp 0); [reflexivity |].
  f_equal. rewrite Z.mul_1_l. apply Z.mod_pow_l.
Qed.

(** The bounds given to the loops are enough: [ModulusPow] returns whenever
    the modulus is not zero, and faults on a zero modulus. *)
Lemma mulmod64_returns (a b m : Z) :
  m <> 0 -> exists r, mulmod64 a b m = ok r.
Proof.
  intro H. unfold mulmod64. rewrite !umod_ok by exact H. cbn [bind].
  rewrite umod_ok by exact H. eauto.
Qed.

Lemma ModulusPow_loop_returns (fuel : nat) :
  forall base exp md result,
    md <> 0 -> 0 <= exp < 2 ^ Z.of_nat fuel ->
    exists r, ModulusPow_loop fuel base exp md result = ok r.
Proof.
  induction fuel as [| fuel IH]; intros base exp md result Hm He.
  - assert (exp = 0) by (change (2 ^ Z.of_nat 0) with 1 in He; lia).
    subst exp. now exists result.
  - cbn [ModulusPow_loop].
    destruct (Z.ltb_spec 0 exp) as [Hpos | Hz]; [| now exists result].
    destruct (mulmod64_returns result base md Hm) as [r1 E1].
    destruct (mulmod64_returns base base md Hm) as [b1 E2].
    rewrite E1, E2, shiftr_1_div.
    assert (Hhalf : 0 <= exp / 2 < 2 ^ Z.of_nat fuel).
    { rewrite Nat2Z.inj_succ, Z.pow_succ_r in He by lia.
      split; [apply Z.div_pos; lia | apply Z.div_lt_upper_bound; lia]. }
    destruct (Z.land exp 1 =? 0); cbn [bind]; now apply IH.
Qed.

Lemma ModulusPow_returns (base exp md : Z) :
  u64 md <> 0 -> exists r, ModulusPow base exp md = ok r.
Proof.
  intro H. unfold ModulusPow. rewrite umod_ok by exact H. cbn [bind].
  apply ModulusPow_loop_returns; [exact H |].
  apply (wrap_range 64 exp). lia.
Qed.

Lemma ModulusPow_zero_modulus (base exp : Z) :
  ModulusPow base exp 0 = err DivisionByZero.
Proof. reflexivity. Qed.

(** The halving loop of [MillerRabin] does not end on [d = 0], whatever the
    bound. *)
Lemma MillerRabin_halve_zero (fuel : nat) :
  forall s, MillerRabin_halve fuel 0 s = err OutOfFuel.
Proof.
  induction fuel as [| fuel IH]; intro s; [reflexivity |].
  cbn [MillerRabin_halve]. change (IsEven 0) with true. cbv iota.
  change (Z.shiftr 0 1) with 0. apply IH.
Qed.

(** ** Power *)

Lemma Power_loop_spec (count : nat) :
  forall val OldVal,
    Power_loop count val OldVal
    = if (count =? 0)%nat then val
      else (val * OldVal ^ Z.of_nat count) mod 2 ^ 32.
Proof.
  induction count as [| count IH]; intros val OldVal; [reflexivity |].
  cbn [Power_loop]. rewrite IH. change (S count =? 0)%nat with false.
  unfold u32, wrap.
  destruct count as [| count].
  - cbn [Nat.eqb]. f_equal. change (Z.of_nat 1) with 1. now rewrite Z.pow_1_r.
  - change (S count =? 0)%nat with false. cbv beta iota.
    rewrite Z.mul_mod_idemp_l by lia. f_equal.
    rewrite (Nat2Z.inj_succ (S count)), Z.pow_succ_r by lia. ring.
Qed.

(** [Power] is the power modulo [2 ^ 32]. *)
Lemma Power_spec (val n : Z) :
  0 <= val < 2 ^ 32 -> 0 < n < 256 ->
  Power val n = (val ^ n) mod 2 ^ 32.
Proof.
  intros Hv Hn. unfold Power.
  rewrite u8_small by lia. rewrite u32_small by lia.
  destruct (Z.eqb_spec n 0); [lia |].
  rewrite Power_loop_spec.
  destruct (Nat.eqb_spec (Z.to_nat (n - 1)) 0) as [E | E].
  - assert (n = 1) by lia. subst n. rewrite Z.pow_1_r.
    symmetry. apply Z.mod_small. lia.
  - f_equal. rewrite Z2Nat.id by lia.
    replace n with (Z.succ (n - 1)) at 2 by lia.
    rewrite Z.pow_succ_r by lia. reflexivity.
Qed.

(** ** The machine-integer test equals the program's *)

Lemma to_Z_2 : to_Z 2 = 2.
Proof. reflexivity. Qed.

Lemma int_eqb_to_Z (x y : int) : (x =? y)%uint63 = (to_Z x =? to_Z y).
Proof.
  destruct (eqbP x y) as [H | H]; symmetry.
  - now apply Z.eqb_eq.
  - now apply Z.eqb_neq.
Qed.

Lemma int_ltb_to_Z (x y : int) : (x <? y)%uint63 = (to_Z x <? to_Z y).
Proof.
  destruct (ltbP x y) as [H | H]; symmetry.
  - now apply Z.ltb_lt.
  - now apply Z.ltb_ge, Z.nlt_ge.
Qed.

Lemma mulmod63_spec (a b m : int) :
  0 < to_Z m <= 4294967296 -> to_Z a < to_Z m -> to_Z b < to_Z m ->
  to_Z (mulmod63 a b m) = (to_Z a * to_Z b) mod to_Z m.
Proof.
  intros Hm Ha Hb. unfold mulmod63.
  pose proof (mulc_spec a b) as Hc.
  destruct (mulc a b) as [h l]. cbn [fst snd] in Hc.
  pose proof (diveucl_21_spec h l m) as Hd.
  destruct (diveucl_21 h l m) as [q r]. cbn [snd].
  rewrite <- Hc in Hd. unfold Z.modulo.
  destruct (Z.div_eucl (to_Z a * to_Z b) (to_Z m)) as [q' r'].
  apply Hd.
  pose proof (to_Z_bounded a). pose proof (to_Z_bounded b).
  pose proof (to_Z_bounded h). pose proof (to_Z_bounded l).
  change wB with 9223372036854775808 in *. nia.
Qed.

Lemma mulmod63_refines (a b m : int) :
  0 < to_Z m <= 4294967296 -> to_Z a < to_Z m -> to_Z b < to_Z m ->
  mulmod64 (to_Z a) (to_Z b) (to_Z m) = ok (to_Z (mulmod63 a b m)).
Proof.
  intros Hm Ha Hb. rewrite mulmod64_spec by exact Hm.
  now rewrite mulmod63_spec.
Qed.

Lemma mulmod63_bound (a b m : int) :
  0 < to_Z m <= 4294967296 -> to_Z a < to_Z m -> to_Z b < to_Z m ->
  to_Z (mulmod63 a b m) < to_Z m.
Proof.
  intros Hm Ha Hb. rewrite mulmod63_spec by assumption.
  apply Z.mod_pos_bound. lia.
Qed.

Lemma ModulusPow63_loop_refines (fuel : nat) :
  forall base exp md result,
    0 < to_Z md <= 4294967296 ->
    to_Z base < to_Z md -> to_Z result < to_Z md ->
    to_Z exp < 2 ^ Z.of_nat fuel ->
    ModulusPow_loop fuel (to_Z base) (to_Z exp) (to_Z md) (to_Z result)
    = ok (to_Z (ModulusPow63_loop fuel base exp md result)).
Proof.
  induction fuel as [| fuel IH]; intros base exp md result Hm Hb Hr He;
    cbn [ModulusPow_loop ModulusPow63_loop];
    rewrite int_ltb_to_Z; change (to_Z 0) with 0;
    destruct (Z.ltb_spec 0 (to_Z exp)) as [Hpos | Hz]; try reflexivity.
  - change (2 ^ Z.of_nat 0) with 1 in He. lia.
  - rewrite land_1_mod, shiftr_1_div, int_eqb_to_Z, mod_spec.
    change (to_Z 0) with 0. rewrite to_Z_2.
    assert (Hhalf : to_Z (exp / 2)%uint63 < 2 ^ Z.of_nat fuel).
    { rewrite div_spec, to_Z_2.
      rewrite Nat2Z.inj_succ, Z.pow_succ_r in He by lia.
      apply Z.div_lt_upper_bound; lia. }
    rewrite !mulmod63_refines by assumption. cbn [bind].
    replace (to_Z exp / 2) with (to_Z (exp / 2)%uint63)
      by (now rewrite div_spec, to_Z_2).
    destruct (to_Z exp mod 2 =? 0); cbn [bind].
    + apply IH; try assumption. now apply mulmod63_bound.
    + apply IH; try assumption; now apply mulmod63_bound.
Qed.

Lemma ModulusPow63_refines (a : Z) (d n : int) :
  0 <= a < 4294967296 -> 1 < to_Z n <= 4294967296 ->
  ModulusPow a (to_Z d) (to_Z n) = ok (to_Z (ModulusPow63 (of_Z a) d n)).
Proof.
  intros Ha Hn. unfold ModulusPow, ModulusPow63.
  pose proof (to_Z_bounded d) as Hd. change wB with 9223372036854775808 in Hd.
  rewrite !u64_small by lia.
  rewrite umod_ok by lia. cbn [bind].
  assert (Hof : to_Z (of_Z a) = a).
  { rewrite of_Z_spec. apply Z.mod_small.
    change wB with 9223372036854775808. lia. }
  assert (Hbase : to_Z (of_Z a mod n)%uint63 = a mod to_Z n)
    by (now rewrite mod_spec, Hof).
  rewrite <- Hbase. change 1 with (to_Z 1) at 1.
  apply ModulusPow63_loop_refines.
  - lia.
  - rewrite Hbase. apply Z.mod_pos_bound. lia.
  - change (to_Z 1) with 1. lia.
  - change (2 ^ Z.of_nat 64) with 18446744073709551616. lia.
Qed.

Lemma ModulusPow63_bound (a : Z) (d n : int) :
  0 <= a < 4294967296 -> 1 < to_Z n <= 4294967296 ->
  to_Z (ModulusPow63 (of_Z a) d n) < to_Z n.
Proof.
  intros Ha Hn.
  pose proof (ModulusPow63_refines a d n Ha Hn) as Hr.
  pose proof (to_Z_bounded d) as Hd. change wB with 9223372036854775808 in Hd.
  rewrite ModulusPow_spec in Hr by lia.
  injection Hr as Hr. rewrite <- Hr.
  destruct (to_Z d =? 0); [lia | apply Z.mod_pos_bound; lia].
Qed.

Lemma halve63_refines (fuel : nat) :
  forall d s,
    0 < to_Z d < 4294967296 -> to_Z d < 2 ^ Z.of_nat fuel ->
    MillerRabin_halve fuel (to_Z d) s
    = ok (to_Z (fst (halve63 fuel d s)), snd (halve63 fuel d s)).
Proof.
  induction fuel as [| fuel IH]; intros d s Hd Hf.
  - change (2 ^ Z.of_nat 0) with 1 in Hf. lia.
  - cbn [MillerRabin_halve halve63]. unfold IsEven.
    rewrite u32_small by lia.
    rewrite int_eqb_to_Z, mod_spec, to_Z_2. change (to_Z 0) with 0.
    destruct (Z.eqb_spec (to_Z d mod 2) 0) as [Hev | Hodd]; [| reflexivity].
    rewrite shiftr_1_div.
    assert (Hdm : to_Z d = 2 * (to_Z d / 2) + to_Z d mod 2)
      by (apply Z.div_mod; lia).
    replace (to_Z d / 2) with (to_Z (d / 2)%uint63)
      by (now rewrite div_spec, to_Z_2).
    rewrite Nat2Z.inj_succ, Z.pow_succ_r in Hf by lia.
    apply IH; rewrite div_spec, to_Z_2; lia.
Qed.

Lemma to_Z_pred (n : int) : 0 < to_Z n -> to_Z (n - 1)%uint63 = to_Z n - 1.
Proof.
  intro H. rewrite sub_spec. change (to_Z 1) with 1.
  pose proof (to_Z_bounded n). apply Z.mod_small. lia.
Qed.

Lemma square63_refines (count : nat) :
  forall x n i,
    1 < to_Z n <= 4294967296 -> to_Z x < to_Z n ->
    MillerRabin_square count (to_Z x) (to_Z n) i = ok (square63 count x n i).
Proof.
  induction count as [| count IH]; intros x n i Hn Hx; [reflexivity |].
  cbn [MillerRabin_square square63].
  rewrite mulmod63_refines by (assumption || lia). cbn [bind].
  rewrite !int_eqb_to_Z, to_Z_pred by lia. change (to_Z 1) with 1.
  rewrite u64_small by lia.
  destruct (to_Z (mulmod63 x x n) =? 1); [reflexivity |].
  destruct (to_Z (mulmod63 x x n) =? to_Z n - 1); [reflexivity |].
  apply IH; [assumption |]. apply mulmod63_bound; (assumption || lia).
Qed.

Lemma read_In (l : list Z) (idx x : Z) : read l idx = ok x -> In x l.
Proof.
  unfold read. destruct (idx <? 0); [discriminate |].
  destruct (nth_error l (Z.to_nat idx)) as [y |] eqn:E; [| discriminate].
  intro H. injection H as <-. eapply nth_error_In, E.
Qed.

Lemma witnesses63_refines (k : nat) :
  forall n g d s,
    1 < to_Z n <= 4294967296 ->
    Forall (fun a => 0 <= a < 4294967296) g ->
    MillerRabin_witnesses k (to_Z n) g (to_Z d) s = witnesses63 k n g d s.
Proof.
  induction k as [| k IH]; intros n g d s Hn Hg; [reflexivity |].
  cbn [MillerRabin_witnesses witnesses63].
  destruct (read g (Z.of_nat k)) as [a | f] eqn:Ea; [| reflexivity].
  cbn [bind].
  assert (Ha : 0 <= a < 4294967296).
  { apply read_In in Ea. rewrite Forall_forall in Hg. now apply Hg. }
  rewrite ModulusPow63_refines by assumption. cbn [bind].
  pose proof (ModulusPow63_bound a d n Ha Hn) as Hx.
  rewrite !int_eqb_to_Z, to_Z_pred by lia. change (to_Z 1) with 1.
  rewrite u64_small by lia.
  destruct ((to_Z (ModulusPow63 (of_Z a) d n) =? 1)
            || (to_Z (ModulusPow63 (of_Z a) d n) =? to_Z n - 1)).
  - now apply IH.
  - rewrite square63_refines by assumption. cbn [bind].
    destruct (square63 _ _ _ _) as [| j]; [reflexivity |].
    destruct (j =? s); [reflexivity | now apply IH].
Qed.

Lemma MillerRabin63_refines (n : Z) (g : list Z) (k : Z) :
  1 < n < 4294967296 ->
  Forall (fun a => 0 <= a < 4294967296) g ->
  MillerRabin n g k = MillerRabin63 n g k.
Proof.
  intros Hn Hg. unfold MillerRabin, MillerRabin63.
  rewrite u64_small by lia. rewrite u32_small by lia.
  assert (Hof : to_Z (of_Z n) = n).
  { rewrite of_Z_spec. apply Z.mod_small.
    change wB with 9223372036854775808. lia. }
  assert (Hd : to_Z (of_Z n - 1)%uint63 = n - 1)
    by (rewrite to_Z_pred; lia).
  rewrite <- Hd.
  rewrite halve63_refines
    by (rewrite Hd; change (2 ^ Z.of_nat 32) with 4294967296; lia).
  cbn [bind fst snd]. rewrite <- Hof at 1.
  apply witnesses63_refines; [lia | assumption].
Qed.

(** The two primality tests agree on every input. *)
Lemma IsPrime63_eq (x : Z) : IsPrime63 x = IsPrime x.
Proof.
  unfold IsPrime63, IsPrime, IsPrime_with.
  pose proof (u32_range x) as Hx. set (n := u32 x) in *.
  destruct (Z.eqb_spec (n mod 2) 0) as [? | Hodd]; [reflexivity |].
  destruct (Z.leb_spec n 1) as [? | H1]; [reflexivity |]. cbn [orb].
  assert (Hmr : forall g k, Forall (fun a => 0 <= a < 4294967296) g ->
                            MillerRabin63 n g k = MillerRabin n g k).
  { intros g k Hg. symmetry. apply MillerRabin63_refines; [lia | assumption]. }
  repeat match goal with
         | |- context [if ?b then _ else _] => destruct b
         end;
    try reflexivity; apply Hmr; repeat constructor; lia.
Qed.

(** ** IsPrime *)

(** [IsPrime] sees its argument through the 32 bits of its parameter. *)
Lemma IsPrime_with_u32 (MR : Z -> list Z -> Z -> res bool) (x : Z) :
  IsPrime_with MR (u32 x) = IsPrime_with MR x.
Proof. unfold IsPrime_with. unfold u32. now rewrite wrap_wrap. Qed.

Lemma IsPrime_same_u32 (x y : Z) : u32 x = u32 y -> IsPrime x = IsPrime y.
Proof.
  intro H. unfold IsPrime.
  rewrite <- (IsPrime_with_u32 _ x), <- (IsPrime_with_u32 _ y). now rewrite H.
Qed.

Lemma read_ok (l : list Z) (idx : Z) :
  0 <= idx < Z.of_nat (length l) -> exists x, read l idx = ok x.
Proof.
  intro H. unfold read.
  destruct (Z.ltb_spec idx 0); [lia |].
  destruct (nth_error l (Z.to_nat idx)) as [x |] eqn:E; [now exists x |].
  apply nth_error_None in E. lia.
Qed.

Lemma witnesses63_total (k : nat) :
  forall n g d s,
    (k <= length g)%nat -> exists b, witnesses63 k n g d s = ok b.
Proof.
  induction k as [| k IH]; intros n g d s Hk; [now exists true |].
  cbn [witnesses63].
  destruct (read_ok g (Z.of_nat k) ltac:(lia)) as [a ->]. cbn [bind].
  destruct (_ || _)%bool; [apply IH; lia |].
  destruct (square63 _ _ _ _) as [| j]; [now exists false |].
  destruct (j =? s); [now exists false | apply IH; lia].
Qed.

(** [IsPrime] returns a verdict on every argument. *)
Lemma IsPrime_returns (x : Z) : exists b, IsPrime x = ok b.
Proof.
  rewrite <- IsPrime63_eq. unfold IsPrime63, IsPrime_with.
  pose proof (u32_range x) as Hx. set (n := u32 x) in *.
  destruct ((n mod 2 =? 0) || (n <=? 1)); [now exists false |].
  assert (Hmr : forall g k, (Z.to_nat (u8 k) <= length g)%nat ->
                            exists b, MillerRabin63 n g k = ok b).
  { intros g k Hk. unfold MillerRabin63. now apply witnesses63_total. }
  repeat match goal with
         | |- context [if ?b then _ else _] => destruct b eqn:?
         end;
    try (apply Hmr; cbn; lia).
  apply Z.ltb_ge in Heqb3. lia.
Qed.

(** ** Trial division *)

Lemma no_divisor_spec (count : nat) :
  forall d n,
    0 < d ->
    n < (d + Z.of_nat count) * (d + Z.of_nat count) ->
    no_divisor count d n = true
    <-> (forall k, d <= k -> k * k <= n -> n mod k <> 0).
Proof.
  induction count as [| count IH]; intros d n Hd Hn.
  - cbn [no_divisor]. split; [| reflexivity].
    intros _ k Hk Hkk. nia.
  - cbn [no_divisor].
    destruct (Z.ltb_spec n (d * d)) as [Hlt | Hge].
    + split; [| reflexivity]. intros _ k Hk Hkk. nia.
    + destruct (Z.eqb_spec (n mod d) 0) as [Hz | Hnz].
      * split; [discriminate |]. intro H. exfalso.
        apply (H d); [lia | assumption | assumption].
      * rewrite IH by lia. split.
        -- intros H k Hk Hkk.
           destruct (Z.eq_dec k d) as [-> | Hne]; [assumption |].
           apply H; lia.
        -- intros H k Hk Hkk. apply H; lia.
Qed.

(** Trial division decides primality. *)
Lemma trial_division_prime (n : Z) : trial_division n = true <-> prime n.
Proof.
  rewrite <- prime_alt. unfold trial_division, Z.prime.
  rewrite andb_true_iff, Z.ltb_lt.
  split.
  - intros [H1 Hd]. split; [assumption |].
    rewrite no_divisor_spec in Hd by (rewrite ?Z2Nat.id; nia).
    intros m Hm [q Hq].
    assert (Hq1 : 1 < q) by nia.
    destruct (Z.le_gt_cases m q) as [Hle | Hgt].
    + apply (Hd m); [lia | nia |]. apply Z.mod0_divide. now exists q.
    + apply (Hd q); [lia | nia |]. apply Z.mod0_divide. exists m. lia.
  - intros [H1 Hp]. split; [assumption |].
    rewrite no_divisor_spec by (rewrite ?Z2Nat.id; nia).
    intros k Hk Hkk Hmod.
    apply (Hp k); [nia |]. apply Z.mod_divide; [lia | assumption].
Qed.

Lemma agrees_spec (isprime : Z -> res bool) (count : nat) :
  forall n0,
    agrees isprime count n0 = true ->
    forall n, n0 <= n < n0 + Z.of_nat count ->
              isprime n = ok (trial_division n).
Proof.
  induction count as [| count IH]; intros n0 H n Hn; [lia |].
  cbn [agrees] in H. apply andb_true_iff in H as [H1 H2].
  destruct (Z.eq_dec n n0) as [-> | Hne].
  - destruct (isprime n0) as [b | f]; [| discriminate].
    apply eqb_prop in H1. now subst b.
  - apply (IH (n0 + 1)); [assumption | lia].
Qed.

(** The primality test and trial division agree from 3 to 10000. *)
Lemma agrees_3_10000 : agrees IsPrime (Z.to_nat 9998) 3 = true.
Proof.
  assert (H : forall count n, agrees IsPrime count n = agrees IsPrime63 count n).
  { induction count as [| count IH]; intro n; [reflexivity |].
    cbn [agrees]. now rewrite IH, IsPrime63_eq. }
  rewrite H. vm_compute. reflexivity.
Qed.

(** ** The buffer *)

Lemma write_nth_read (l : list Z) :
  forall idx x l', write_nth l idx x = Some l' -> nth_error l' idx = Some x.
Proof.
  induction l as [| h t IH]; intros idx x l' H; [destruct idx; discriminate |].
  destruct idx as [| idx]; cbn in H.
  - injection H as <-. reflexivity.
  - destruct (write_nth t idx x) as [t' |] eqn:E; [| discriminate].
    injection H as <-. cbn. now apply IH.
Qed.

(** A slot holds what was last written to it. *)
Lemma read_write (l l' : list Z) (idx x : Z) :
  write l idx x = ok l' -> read l' idx = ok x.
Proof.
  unfold write, read. destruct (idx <? 0); [discriminate |].
  destruct (write_nth l (Z.to_nat idx) x) as [l1 |] eqn:E; [| discriminate].
  intro H. injection H as <-. now rewrite (write_nth_read _ _ _ _ E).
Qed.

(** ** Steps of the search *)

(** The loop body unfolded to records of the old locals. *)
Ltac unfold_body :=
  cbv beta zeta delta [loop_body set_u set_PrimesCount set_stored];
  cbn [LTP_Buf PwVal LTP_IndexProc LTP_IndexFree LTP_IndexOldFree u i order
       PrimesCount].

Ltac unfold_body_in H :=
  cbv beta zeta delta [loop_body set_u set_PrimesCount set_stored] in H;
  cbn [LTP_Buf PwVal LTP_IndexProc LTP_IndexFree LTP_IndexOldFree u i order
       PrimesCount] in H.

(** The control steps unfolded to records of the old locals. *)
Ltac unfold_control :=
  cbv beta zeta delta [next_digit start_order set_u set_i set_LTP_IndexProc
                       enter_order];
  cbn [LTP_Buf PwVal LTP_IndexProc LTP_IndexFree LTP_IndexOldFree u i order
       PrimesCount].

Ltac unfold_control_in H :=
  cbv beta zeta delta [next_digit start_order set_u set_i set_LTP_IndexProc
                       enter_order] in H;
  cbn [LTP_Buf PwVal LTP_IndexProc LTP_IndexFree LTP_IndexOldFree u i order
       PrimesCount] in H.

Lemma next_index_mod (x : Z) :
  next_index (x mod BUF_LENGTH) = (x + 1) mod BUF_LENGTH.
Proof.
  unfold next_index, BUF_LENGTH.
  pose proof (Z.mod_pos_bound x 680 ltac:(lia)) as Hr.
  rewrite u16_small by lia.
  rewrite <- (Z.add_mod_idemp_l x 1 680) by lia.
  destruct (Z.leb_spec 680 (x mod 680 + 1)) as [H | H].
  - replace (x mod 680 + 1) with 680 by lia. reflexivity.
  - symmetry. apply Z.mod_small. lia.
Qed.

Section StepFacts.

Variable isprime : Z -> res bool.

(** A property that holds at the start of a run and that every step keeps
    holds throughout. *)
Lemma reaches_invariant (P : locals -> tally -> Prop) (n : Z) :
  (forall c t c', P c t -> step isprime n c = ok (inr c') ->
                  P c' (follow c c' t)) ->
  forall c0 t0 c t, reaches isprime n c0 t0 c t -> P c0 t0 -> P c t.
Proof.
  intros Hstep c0 t0 c t Hr. induction Hr as [| c c1 c' t t' Hst _ IH].
  - auto.
  - intro H. apply IH. now apply (Hstep c t c1).
Qed.

Lemma reaches_snoc (n : Z) (c0 c c' : locals) (t0 t : tally) :
  reaches isprime n c0 t0 c t -> step isprime n c = ok (inr c') ->
  reaches isprime n c0 t0 c' (follow c c' t).
Proof.
  intros Hr Hst. induction Hr as [c t | c c1 c2 t t2 Hst1 _ IH].
  - eapply reaches_step; [exact Hst | apply reaches_here].
  - eapply reaches_step; [exact Hst1 | now apply IH].
Qed.

Lemma advance_reaches (n : Z) (k : nat) :
  forall c t c' t',
    advance isprime n k c t = Some (c', t') -> reaches isprime n c t c' t'.
Proof.
  induction k as [| k IH]; intros c t c' t' H; cbn [advance] in H.
  - injection H as <- <-. apply reaches_here.
  - destruct (step isprime n c) as [[v | c1] | f] eqn:E; try discriminate.
    eapply reaches_step; [exact E | now apply IH].
Qed.

(** The first digit the loop over [v] finds gives a number the test
    accepts. *)
Lemma extend_loop_found (count : nat) :
  forall num PwValN v v',
    v + Z.of_nat count = 10 -> 1 <= v ->
    extend_loop isprime count num PwValN v = ok v' -> v' < 10 ->
    1 <= v' <= 9 /\ isprime (u32 (num + u32 (PwValN * v'))) = ok true.
Proof.
  induction count as [| count IH]; intros num PwValN v v' Hc Hv He Hlt.
  - cbn in He. injection He as <-. lia.
  - cbn [extend_loop] in He.
    destruct (isprime (u32 (num + u32 (PwValN * v)))) as [[|] | f] eqn:Ep;
      cbn [bind] in He; [| | discriminate].
    + injection He as <-. split; [lia | assumption].
    + rewrite u16_small in He by lia.
      apply (IH num PwValN (v + 1) v'); (assumption || lia).
Qed.

(** What the two kinds of step leave unchanged. *)
Lemma next_digit_keeps (c c' : locals) :
  next_digit c = inr c' ->
  LTP_IndexFree c' = LTP_IndexFree c
  /\ (order c' = order c \/ (order c < 9 /\ order c' = u16 (order c + 1))).
Proof.
  unfold_control.
  destruct (u16 (i c + 1) <? 10).
  - intro H. injection H as <-. cbn. auto.
  - destruct (Z.ltb_spec (order c) 9) as [Hlt | Hge]; [| discriminate].
    intro H. injection H as <-. cbn. auto.
Qed.

Lemma loop_body_keeps (n : Z) (c c' : locals) :
  loop_body isprime n c = ok (inr c') ->
  order c' = order c /\ i c' = i c /\ u c' = next_index (u c)
  /\ LTP_IndexProc c' = LTP_IndexProc c
  /\ LTP_IndexOldFree c' = LTP_IndexOldFree c.
Proof.
  unfold_body.
  destruct (candidate c) as [num | f]; [| discriminate]. cbn [bind].
  destruct (isprime num) as [[|] | f]; [| | discriminate]; cbn [bind].
  - destruct (u16 (PrimesCount c + 1) =? n); [discriminate |].
    destruct (extend_loop isprime 9 num _ 1) as [v | f]; [| discriminate].
    cbn [bind]. destruct (v <? 10).
    + destruct (write _ _ _) as [buf | f]; [| discriminate]. cbn [bind].
      intro H. injection H as <-. cbn. auto.
    + intro H. injection H as <-. cbn. auto.
  - intro H. injection H as <-. cbn. auto.
Qed.

(** A step that moves the write cursor is a turn of the loop over [u] whose
    candidate is prime, is not the one looked for, and has a digit [v]
    found by the loop over [v]; the candidate is written at the cursor. *)
Lemma step_store (n : Z) (c c' : locals) :
  step isprime n c = ok (inr c') ->
  LTP_IndexFree c' <> LTP_IndexFree c ->
  (u c =? LTP_IndexOldFree c) = false
  /\ LTP_IndexFree c' = next_index (LTP_IndexFree c)
  /\ exists num v,
      candidate c = ok num
      /\ isprime num = ok true
      /\ extend_loop isprime 9 num (Power 10 (order c + 1)) 1 = ok v
      /\ v < 10
      /\ write (LTP_Buf c) (LTP_IndexFree c) num = ok (LTP_Buf c').
Proof.
  unfold step. destruct (u c =? LTP_IndexOldFree c).
  - intros H Hf. injection H as H. apply next_digit_keeps in H as [H _].
    contradiction.
  - unfold_body.
    destruct (candidate c) as [num | f]; [| discriminate]. cbn [bind].
    destruct (isprime num) as [[|] | f] eqn:Ep; [| | discriminate];
      cbn [bind].
    + destruct (u16 (PrimesCount c + 1) =? n); [discriminate |].
      destruct (extend_loop isprime 9 num _ 1) as [v | f] eqn:Ev;
        [| discriminate].
      cbn [bind]. destruct (Z.ltb_spec v 10) as [Hv | Hv].
      * destruct (write _ _ _) as [buf | f] eqn:Ew; [| discriminate].
        cbn [bind]. intros H _. injection H as <-. cbn.
        split; [reflexivity |]. split; [reflexivity |].
        exists num, v. repeat split; assumption.
      * intros H Hf. injection H as <-. cbn in Hf. contradiction.
    + intros H Hf. injection H as <-. cbn in Hf. contradiction.
Qed.

(** The order stays between 1 and 9. *)
Lemma step_order (n : Z) (c c' : locals) :
  step isprime n c = ok (inr c') -> 1 <= order c <= 9 -> 1 <= order c' <= 9.
Proof.
  unfold step. destruct (u c =? LTP_IndexOldFree c).
  - intros H Ho. injection H as H.
    apply next_digit_keeps in H as [_ [-> | [Hlt ->]]]; [assumption |].
    rewrite u16_small by lia. lia.
  - intros H Ho. apply loop_body_keeps in H as [-> _]. assumption.
Qed.

(** Every step keeps the tally and the cursors in agreement. *)
Lemma step_cursors (n : Z) (c c' : locals) (t : tally) :
  cursors_agree c t -> step isprime n c = ok (inr c') ->
  cursors_agree c' (follow c c' t).
Proof.
  unfold cursors_agree. intros (Hf & Hp & Ho & Hu) Hst.
  destruct (Z.eq_dec (LTP_IndexFree c') (LTP_IndexFree c)) as [Hsame | Hnew].
  - unfold step in Hst. unfold follow.
    destruct (u c =? LTP_IndexOldFree c).
    + injection Hst as Hst. unfold_control_in Hst.
      destruct (u16 (i c + 1) <? 10).
      * injection Hst as <-. cbn. auto.
      * destruct (order c <? 9); [| discriminate].
        injection Hst as <-. cbn. auto.
    + apply loop_body_keeps in Hst as (_ & _ & Hu' & Hp' & Ho').
      rewrite Hsame, Z.eqb_refl. cbn.
      rewrite Hp', Ho', Hu', Hu, next_index_mod. auto.
  - destruct (step_store n c c' Hst Hnew) as (Hb & Hf' & _).
    unfold step in Hst. rewrite Hb in Hst.
    apply loop_body_keeps in Hst as (_ & _ & Hu' & Hp' & Ho').
    unfold follow. rewrite Hb.
    destruct (Z.eqb_spec (LTP_IndexFree c') (LTP_IndexFree c));
      [contradiction |].
    cbn. rewrite Hp', Ho', Hu', Hu, Hf', Hf, !next_index_mod. auto.
Qed.

End StepFacts.

(** ** Runs of the search for different indices *)

Section SearchFacts.

Variable isprime : Z -> res bool.

Lemma next_digit_count (c c' : locals) :
  next_digit c = inr c' -> PrimesCount c' = PrimesCount c.
Proof.
  unfold_control.
  repeat match goal with
         | |- context [if ?b then _ else _] => destruct b
         end;
    intro H; inversion H; reflexivity.
Qed.

(** A step that goes on does the same for every index, unless it counts a
    prime: then it returns that prime for the index the count has reached,
    and goes on in the same way for every other index. *)
Lemma step_continue (n T : Z) (c c' : locals) :
  step isprime T c = ok (inr c') ->
  (PrimesCount c' = PrimesCount c /\ step isprime n c = ok (inr c'))
  \/ (PrimesCount c' = u16 (PrimesCount c + 1)
      /\ exists num, candidate c = ok num
                     /\ step isprime n c
                        = if PrimesCount c' =? n then ok (inl num)
                          else ok (inr c')).
Proof.
  unfold step. destruct (u c =? LTP_IndexOldFree c).
  - intro H. left. split; [| exact H].
    injection H as H. now apply next_digit_count.
  - unfold_body.
    destruct (candidate c) as [num | f]; [| discriminate]. cbn [bind].
    destruct (isprime num) as [[|] | f]; [| | discriminate]; cbn [bind].
    + destruct (Z.eqb_spec (u16 (PrimesCount c + 1)) T) as [| HT];
        [discriminate |].
      destruct (extend_loop isprime 9 num _ 1) as [v | f]; [| discriminate].
      cbn [bind].
      destruct (v <? 10).
      * destruct (write _ _ _) as [buf | f]; [| discriminate]. cbn [bind].
        intro H. injection H as <-. right. cbn [PrimesCount].
        split; [reflexivity |]. exists num. split; [reflexivity |].
        destruct (u16 (PrimesCount c + 1) =? n); reflexivity.
      * intro H. injection H as <-. right. cbn [PrimesCount].
        split; [reflexivity |]. exists num. split; [reflexivity |].
        destruct (u16 (PrimesCount c + 1) =? n); reflexivity.
    + intro H. injection H as <-. left. split; reflexivity.
Qed.

(** When the run for index 0 comes to the final [return 0] within the
    bound, the run for every index returns within it: it goes the same way,
    or returns earlier. *)
Lemma finishes_returns (fuel : nat) :
  forall c, finishes isprime fuel c = true ->
            forall n, exists v, run isprime n fuel c = ok v.
Proof.
  induction fuel as [| fuel IH]; intros c H n; [discriminate |].
  cbn [finishes] in H. cbn [run].
  destruct (step isprime 0 c) as [[v | c'] | f] eqn:E; [| | discriminate].
  - unfold step in E |- *. rewrite H in E |- *. rewrite E. now exists v.
  - destruct (step_continue n 0 c c' E) as [[_ ->] | (_ & num & _ & ->)].
    + cbn [bind]. now apply IH.
    + destruct (PrimesCount c' =? n); cbn [bind];
        [now exists num | now apply IH].
Qed.

(** What a successful sweep saw at its first step. *)
Lemma sweep_inv (T : Z) (fuel : nat) (c : locals) (t : tally) (last : Z) :
  sweep isprime T (S fuel) c t last = true ->
  live c t <= BUF_LENGTH
  /\ ((exists v, step isprime T c = ok (inl v)
                 /\ last < v /\ u16 (PrimesCount c + 1) = T)
      \/ (exists c', step isprime T c = ok (inr c')
                     /\ PrimesCount c' = PrimesCount c
                     /\ sweep isprime T fuel c' (follow c c' t) last = true)
      \/ (exists c' num, step isprime T c = ok (inr c')
                         /\ PrimesCount c' <> PrimesCount c
                         /\ candidate c = ok num /\ last < num
                         /\ sweep isprime T fuel c' (follow c c' t) num
                            = true)).
Proof.
  cbn [sweep]. intro H. apply andb_true_iff in H as [Hl H].
  split; [now apply Z.leb_le |].
  destruct (step isprime T c) as [[v | c'] | f]; [| | discriminate].
  - apply andb_true_iff in H as [H1 H2]. left. exists v.
    repeat split; [now apply Z.ltb_lt | now apply Z.eqb_eq].
  - destruct (Z.eqb_spec (PrimesCount c') (PrimesCount c)) as [E | E].
    + right. left. exists c'. repeat split; assumption.
    + destruct (candidate c) as [num | f]; [| discriminate].
      apply andb_true_iff in H as [H1 H2].
      right. right. exists c', num.
      repeat split; try assumption. now apply Z.ltb_lt.
Qed.

(** A successful sweep for [T] gives the result of the run for every index
    up to [T] that is still ahead, each above [last]. *)
Lemma sweep_results (T : Z) (fuel : nat) :
  forall c t last,
    sweep isprime T fuel c t last = true ->
    0 <= PrimesCount c ->
    forall n, PrimesCount c < n <= T ->
              exists v, run isprime n fuel c = ok v /\ last < v.
Proof.
  induction fuel as [| fuel IH]; intros c t last Hs Hc n Hn;
    [discriminate |].
  apply sweep_inv in Hs as [_ [(v & Hst & Hv & HT) | [(c' & Hst & Hpc & Hs)
                                 | (c' & num & Hst & Hpc & Hnum & Hlt & Hs)]]].
  - pose proof (u16_succ_le _ Hc). assert (n = T) by lia. subst n.
    exists v. cbn [run]. rewrite Hst. split; [reflexivity | assumption].
  - destruct (step_continue n T c c' Hst) as [[_ Hn'] | [Hpc' _]].
    2:{ exfalso. rewrite Hpc in Hpc'. symmetry in Hpc'.
        exact (u16_succ_neq _ Hpc'). }
    cbn [run]. rewrite Hn'. cbn [bind].
    apply (IH c' _ last Hs); lia.
  - destruct (step_continue n T c c' Hst) as [[Hpc' _] | (Hpc' & num' & Hc' & Hn')];
      [contradiction |].
    rewrite Hnum in Hc'. injection Hc' as <-.
    pose proof (u16_succ_le _ Hc). pose proof (u16_range (PrimesCount c + 1)).
    cbn [run]. rewrite Hn'.
    destruct (Z.eqb_spec (PrimesCount c') n) as [E | E]; cbn [bind].
    + exists num. split; [reflexivity | assumption].
    + destruct (IH c' _ num Hs ltac:(lia) n ltac:(lia)) as (v & Hv & Hlt').
      exists v. split; [assumption | lia].
Qed.

(** The results for two indices are in the order of the indices. *)
Lemma sweep_monotone (T : Z) (fuel : nat) :
  forall c t last,
    sweep isprime T fuel c t last = true ->
    0 <= PrimesCount c ->
    forall n1 n2, PrimesCount c < n1 -> n1 < n2 <= T ->
                  exists v1 v2, run isprime n1 fuel c = ok v1
                                /\ run isprime n2 fuel c = ok v2
                                /\ v1 < v2.
Proof.
  induction fuel as [| fuel IH]; intros c t last Hs Hc n1 n2 Hn1 Hn2;
    [discriminate |].
  pose proof (u16_succ_le _ Hc) as Hle.
  pose proof (u16_range (PrimesCount c + 1)) as Hrg.
  apply sweep_inv in Hs as [_ [(v & Hst & Hv & HT) | [(c' & Hst & Hpc & Hs)
                                 | (c' & num & Hst & Hpc & Hnum & Hlt & Hs)]]].
  - lia.
  - destruct (step_continue n1 T c c' Hst) as [[_ H1] | [Hpc' _]].
    2:{ exfalso. rewrite Hpc in Hpc'. symmetry in Hpc'.
        exact (u16_succ_neq _ Hpc'). }
    destruct (step_continue n2 T c c' Hst) as [[_ H2] | [Hpc' _]].
    2:{ exfalso. rewrite Hpc in Hpc'. symmetry in Hpc'.
        exact (u16_succ_neq _ Hpc'). }
    cbn [run]. rewrite H1, H2. cbn [bind].
    apply (IH c' _ last Hs); lia.
  - destruct (step_continue n1 T c c' Hst)
      as [[Hpc' _] | (Hpc' & num1 & Hc1 & H1)]; [contradiction |].
    destruct (step_continue n2 T c c' Hst)
      as [[Hpc2 _] | (_ & num2 & Hc2 & H2)]; [contradiction |].
    rewrite Hnum in Hc1, Hc2. injection Hc1 as <-. injection Hc2 as <-.
    cbn [run]. rewrite H1, H2.
    destruct (Z.eqb_spec (PrimesCount c') n2) as [E2 | E2]; [lia |].
    destruct (Z.eqb_spec (PrimesCount c') n1) as [E1 | E1]; cbn [bind].
    + destruct (sweep_results T fuel c' _ num Hs ltac:(lia) n2 ltac:(lia))
        as (v2 & Hv2 & Hlt2).
      exists num, v2. repeat split; assumption.
    + apply (IH c' _ num Hs); lia.
Qed.

(** At most [BUF_LENGTH] records are live at every point of the run for
    every index up to [T] that is still ahead. *)
Lemma sweep_live (T : Z) (fuel : nat) :
  forall c t last,
    sweep isprime T fuel c t last = true ->
    0 <= PrimesCount c ->
    forall n c' t', PrimesCount c < n <= T ->
                    reaches isprime n c t c' t' ->
                    live c' t' <= BUF_LENGTH.
Proof.
  induction fuel as [| fuel IH]; intros c t last Hs Hc n c' t' Hn Hr;
    [discriminate |].
  pose proof (u16_succ_le _ Hc) as Hle.
  pose proof (u16_range (PrimesCount c + 1)) as Hrg.
  apply sweep_inv in Hs as [Hlive Hs].
  inversion Hr as [| ? c1 ? ? ? Hst1 Hr1]; subst; [assumption |].
  destruct Hs as [(v & Hst & Hv & HT) | [(c2 & Hst & Hpc & Hs)
                     | (c2 & num & Hst & Hpc & Hnum & Hlt & Hs)]].
  - assert (n = T) by lia. subst n. rewrite Hst in Hst1. discriminate.
  - destruct (step_continue n T c c2 Hst) as [[_ H1] | [Hpc' _]].
    2:{ exfalso. rewrite Hpc in Hpc'. symmetry in Hpc'.
        exact (u16_succ_neq _ Hpc'). }
    rewrite H1 in Hst1. injection Hst1 as <-.
    apply (IH c2 _ last Hs ltac:(lia) n c' t' ltac:(lia) Hr1).
  - destruct (step_continue n T c c2 Hst)
      as [[Hpc' _] | (Hpc' & num1 & Hc1 & H1)]; [contradiction |].
    rewrite H1 in Hst1.
    destruct (Z.eqb_spec (PrimesCount c2) n) as [E | E]; [discriminate |].
    injection Hst1 as <-.
    apply (IH c2 _ num Hs ltac:(lia) n c' t' ltac:(lia) Hr1).
Qed.

(** The search does the same with two primality tests that agree. *)
Section SameTest.

Variable isprime' : Z -> res bool.
Hypothesis same : forall x, isprime x = isprime' x.

Lemma extend_loop_same (count : nat) :
  forall num PwValN v,
    extend_loop isprime count num PwValN v
    = extend_loop isprime' count num PwValN v.
Proof.
  induction count as [| count IH]; intros num PwValN v; [reflexivity |].
  cbn [extend_loop]. rewrite same.
  destruct (isprime' _) as [[|] | f]; cbn [bind]; auto.
Qed.

Lemma step_same (n : Z) (c : locals) :
  step isprime n c = step isprime' n c.
Proof.
  unfold step. unfold_body.
  destruct (u c =? LTP_IndexOldFree c); [reflexivity |].
  destruct (candidate c) as [num | f]; [| reflexivity]. cbn [bind].
  rewrite same. destruct (isprime' num) as [[|] | f]; try reflexivity.
  cbn [bind]. now rewrite extend_loop_same.
Qed.

Lemma sweep_same (T : Z) (fuel : nat) :
  forall c t last,
    sweep isprime T fuel c t last = sweep isprime' T fuel c t last.
Proof.
  induction fuel as [| fuel IH]; intros c t last; [reflexivity |].
  cbn [sweep]. rewrite step_same.
  destruct (step isprime' T c) as [[v | c'] | f]; try reflexivity.
  rewrite IH. destruct (candidate c) as [num | f]; [| reflexivity].
  now rewrite IH.
Qed.

Lemma finishes_same (fuel : nat) :
  forall c, finishes isprime fuel c = finishes isprime' fuel c.
Proof.
  induction fuel as [| fuel IH]; intro c; [reflexivity |].
  cbn [finishes]. rewrite step_same.
  destruct (step isprime' 0 c) as [[v | c'] | f]; auto.
Qed.

Lemma run_same (n : Z) (fuel : nat) :
  forall c, run isprime n fuel c = run isprime' n fuel c.
Proof.
  induction fuel as [| fuel IH]; intro c; [reflexivity |].
  cbn [run]. rewrite step_same.
  destruct (step isprime' n c) as [[v | c'] | f]; cbn [bind]; auto.
Qed.

Lemma advance_same (n : Z) (k : nat) :
  forall c t, advance isprime n k c t = advance isprime' n k c t.
Proof.
  induction k as [| k IH]; intros c t; [reflexivity |].
  cbn [advance]. rewrite step_same.
  destruct (step isprime' n c) as [[v | c'] | f]; auto.
Qed.

End SameTest.

End SearchFacts.

(** ** The loops and the transition system *)

Section LoopsAndSteps.

Variable isprime : Z -> res bool.

Lemma loop_u_exit (fu : nat) (n : Z) (c : locals) :
  (u c =? LTP_IndexOldFree c) = true -> loop_u isprime fu n c = ok (inr c).
Proof. intro H. destruct fu; cbn [loop_u]; now rewrite H. Qed.

Local Opaque search_fuel.

Lemma run_finish (n : Z) (k : nat) :
  forall c v fu fi fo,
    run isprime n k c = ok v ->
    (k <= fu)%nat -> (k <= search_fuel)%nat ->
    10 <= u16 (i c + 1) + Z.of_nat fi ->
    9 <= order c + Z.of_nat fo ->
    finish isprime fu fi fo n c = ok v.
Proof.
  induction k as [| k IH]; intros c v fu fi fo Hrun Hfu Hk Hi Ho;
    [discriminate |].
  cbn [run] in Hrun. unfold step in Hrun. unfold finish.
  destruct (u c =? LTP_IndexOldFree c) eqn:Eu.
  - rewrite (loop_u_exit fu n c Eu). cbn [bind] in Hrun |- *.
    unfold next_digit in Hrun. cbv zeta in Hrun. cbn [set_i i] in Hrun.
    pose proof (u16_range (i c + 1)) as Hi'.
    destruct (Z.ltb_spec (u16 (i c + 1)) 10) as [Hlt | Hge].
    + destruct fi as [| fi]; [lia |].
      cbn [loop_i set_i i]. destruct (Z.ltb_spec (u16 (i c + 1)) 10); [| lia].
      pose proof (u16_ge (u16 (i c + 1) + 1) ltac:(lia)).
      apply (IH _ v search_fuel fi fo) in Hrun;
        [| lia | lia | cbn [i set_u set_i]; lia | cbn [order set_u set_i]; lia].
      unfold finish in Hrun. cbn [set_u set_i LTP_IndexProc] in Hrun |- *.
      destruct (loop_u isprime search_fuel n _) as [[v1 | c1] | f];
        cbn [bind] in Hrun |- *; assumption.
    + assert (Eloop : loop_i isprime fi n (set_i c (u16 (i c + 1)))
                      = ok (inr (set_i c (u16 (i c + 1))))).
      { destruct fi; cbn [loop_i set_i i];
          (destruct (Z.ltb_spec (u16 (i c + 1)) 10); [lia | reflexivity]). }
      rewrite Eloop. cbn [bind].
      unfold start_order in Hrun. cbv zeta in Hrun.
      cbn [set_LTP_IndexProc set_i order] in Hrun.
      destruct (Z.ltb_spec (order c) 9) as [Hol | Hog].
      * destruct fo as [| fo]; [lia |].
        cbn [loop_order set_LTP_IndexProc set_i order].
        destruct (Z.ltb_spec (order c) 9); [| lia].
        pose proof (u16_ge (order c + 1) ltac:(lia)).
        apply (IH _ v search_fuel 8%nat fo) in Hrun;
          [| lia | lia
           | cbn [i set_u set_i]; change (u16 (1 + 1)) with 2; lia
           | cbn [order set_u set_i set_LTP_IndexProc enter_order]; lia].
        unfold finish in Hrun.
        cbn [loop_i set_i i]. change (1 <? 10) with true. cbv iota.
        match type of Hrun with
        | context [loop_u isprime search_fuel n ?Y] =>
            match goal with
            | |- context [loop_u isprime search_fuel n ?X] => change X with Y
            end
        end.
        destruct (loop_u isprime search_fuel n _) as [[v1 | c1] | f];
          cbn [bind] in Hrun |- *; assumption.
      * destruct fo; cbn [loop_order set_LTP_IndexProc set_i order];
          (destruct (Z.ltb_spec (order c) 9); [lia |]);
          injection Hrun as <-; reflexivity.
  - destruct fu as [| fu]; [lia |].
    cbn [loop_u]. rewrite Eu.
    destruct (loop_body isprime n c) as [[v1 | c1] | f] eqn:Eb;
      cbn [bind] in Hrun |- *; [assumption | | discriminate].
    apply loop_body_keeps in Eb as (Eo & Ei & _).
    apply (IH c1 v fu fi fo) in Hrun;
      [exact Hrun | lia | lia | now rewrite Ei | now rewrite Eo].
Qed.

(** A result of the transition system is the result of the loops. *)
Lemma FindLTP_steps_ok (n v : Z) :
  FindLTP_steps isprime n = ok v -> FindLTP_with isprime n = ok v.
Proof.
  unfold FindLTP_steps, FindLTP_with.
  destruct (u16 n <=? 4); [auto |].
  change (start_order initial_locals) with (@inr Z locals first_locals).
  intro Hrun.
  apply (run_finish _ _ _ v search_fuel 8%nat 8%nat) in Hrun;
    [| lia | lia | cbn; lia | cbn; lia].
  unfold finish in Hrun.
  change (loop_order isprime 9 (u16 n) initial_locals)
    with (r <- loop_i isprime 9 (u16 n) (set_i (enter_order initial_locals) 1) ;;
          match r with
          | inl v => ok v
          | inr c' =>
              loop_order isprime 8 (u16 n)
                (set_LTP_IndexProc c' (LTP_IndexOldFree c'))
          end).
  change (loop_i isprime 9 (u16 n) (set_i (enter_order initial_locals) 1))
    with (r <- loop_u isprime search_fuel (u16 n) first_locals ;;
          match r with
          | inl v => ok (inl v)
          | inr c' => loop_i isprime 8 (u16 n) (set_i c' (u16 (i c' + 1)))
          end).
  destruct (loop_u isprime search_fuel (u16 n) first_locals)
    as [[v1 | c1] | f]; cbn [bind] in Hrun |- *; assumption.
Qed.

End LoopsAndSteps.

(** ** FindLTP and the runs followed by evaluation *)

(** The run for index 2166, followed with the machine-integer test: at most
    [BUF_LENGTH] records are live at every point, the primes counted are in
    ascending order from above 7, and the run returns the prime number
    2166. *)
Lemma sweep_2166 :
  sweep IsPrime 2166 search_fuel first_locals first_tally 7 = true.
Proof.
  rewrite (sweep_same IsPrime IsPrime63 (fun x => eq_sym (IsPrime63_eq x))).
  vm_compute. reflexivity.
Qed.

Lemma FindLTP_steps_seed (n : Z) :
  1 <= n <= 4 ->
  FindLTP_steps IsPrime n = ok (nth (Z.to_nat (n - 1)) [2; 3; 5; 7] 0).
Proof.
  intro H.
  assert (E : n = 1 \/ n = 2 \/ n = 3 \/ n = 4) by lia.
  destruct E as [-> | [-> | [-> | ->]]]; vm_compute; reflexivity.
Qed.

Lemma seeds_ascending (n1 n2 : Z) :
  1 <= n1 -> n1 < n2 -> n2 <= 4 ->
  nth (Z.to_nat (n1 - 1)) [2; 3; 5; 7] 0 < nth (Z.to_nat (n2 - 1)) [2; 3; 5; 7] 0.
Proof.
  intros H1 H12 H2.
  assert (E1 : n1 = 1 \/ n1 = 2 \/ n1 = 3) by lia.
  assert (E2 : n2 = 2 \/ n2 = 3 \/ n2 = 4) by lia.
  destruct E1 as [-> | [-> | ->]]; destruct E2 as [-> | [-> | ->]];
    first [lia | reflexivity].
Qed.

Lemma seeds_at_most_7 (n : Z) :
  1 <= n <= 4 -> nth (Z.to_nat (n - 1)) [2; 3; 5; 7] 0 <= 7.
Proof.
  intro H.
  assert (E : n = 1 \/ n = 2 \/ n = 3 \/ n = 4) by lia.
  destruct E as [-> | [-> | [-> | ->]]]; discriminate.
Qed.

Lemma start_first : start_order initial_locals = inr first_locals.
Proof. reflexivity. Qed.

Lemma FindLTP_steps_run (n : Z) :
  4 < n < 65536 ->
  FindLTP_steps IsPrime n = run IsPrime n search_fuel first_locals.
Proof.
  intro H. unfold FindLTP_steps.
  rewrite u16_small by lia.
  destruct (Z.leb_spec n 4); [lia |].
  now rewrite start_first.
Qed.

(** The bound on the steps of the search is enough for every index: the
    transition system returns on every index from 1 to 65535 (0 when fewer
    primes are found than the index asks for). *)
Lemma search_finishes : finishes IsPrime search_fuel first_locals = true.
Proof.
  rewrite (finishes_same IsPrime IsPrime63 (fun x => eq_sym (IsPrime63_eq x))).
  vm_compute. reflexivity.
Qed.

Lemma FindLTP_steps_returns (n : Z) :
  1 <= n < 65536 -> exists v, FindLTP_steps IsPrime n = ok v.
Proof.
  intro H. destruct (Z.le_gt_cases n 4).
  - rewrite FindLTP_steps_seed by lia. eauto.
  - rewrite FindLTP_steps_run by lia.
    apply (finishes_returns IsPrime search_fuel _ search_finishes).
Qed.

(** [FindLTP] is the transition system, on every index. *)
Lemma FindLTP_steps_eq (n : Z) : FindLTP n = FindLTP_steps IsPrime n.
Proof.
  pose proof (u16_range n) as Hn.
  destruct (Z.le_gt_cases (u16 n) 4) as [Hs | Hr].
  - unfold FindLTP, FindLTP_with, FindLTP_steps.
    destruct (Z.leb_spec (u16 n) 4); [reflexivity | lia].
  - assert (E : FindLTP_steps IsPrime n = FindLTP_steps IsPrime (u16 n)).
    { unfold FindLTP_steps. rewrite u16_u16. reflexivity. }
    destruct (FindLTP_steps_returns (u16 n) ltac:(lia)) as [v Hv].
    rewrite <- E in Hv. rewrite Hv.
    now apply (FindLTP_steps_ok IsPrime).
Qed.

Lemma FindLTP_seed (n : Z) :
  1 <= n <= 4 ->
  FindLTP n = ok (nth (Z.to_nat (n - 1)) [2; 3; 5; 7] 0).
Proof. intro H. rewrite FindLTP_steps_eq. now apply FindLTP_steps_seed. Qed.

Lemma FindLTP_run (n : Z) :
  4 < n < 65536 -> FindLTP n = run IsPrime n search_fuel first_locals.
Proof. intro H. rewrite FindLTP_steps_eq. now apply FindLTP_steps_run. Qed.

(** [FindLTP] returns on every index from 1 to 65535, and index 0 reads
    before the buffer. *)
Lemma FindLTP_returns (n : Z) : 1 <= n < 65536 -> exists v, FindLTP n = ok v.
Proof. intro H. rewrite FindLTP_steps_eq. now apply FindLTP_steps_returns. Qed.

Lemma FindLTP_0 : FindLTP 0 = err OutOfBounds.
Proof. reflexivity. Qed.

(** Every call goes through locals whose order is between 1 and 9 and whose
    cursors are those of the tally. *)
Lemma visits_order (n : Z) (c : locals) (t : tally) :
  visits n c t -> 1 <= order c <= 9.
Proof.
  intros [_ Hr].
  apply (reaches_invariant IsPrime (fun c _ => 1 <= order c <= 9) (u16 n))
    with (2 := Hr).
  - intros c1 t1 c2 Ho Hst. now apply (step_order IsPrime (u16 n) c1 c2).
  - cbn. lia.
Qed.

Lemma visits_cursors (n : Z) (c : locals) (t : tally) :
  visits n c t -> cursors_agree c t.
Proof.
  intros [_ Hr].
  apply (reaches_invariant IsPrime cursors_agree (u16 n)) with (2 := Hr).
  - intros c1 t1 c2 Ha Hst. now apply (step_cursors IsPrime (u16 n)).
  - repeat split.
Qed.

(** The last index of the supported range gives the largest
    left-truncatable prime of nine digits. *)
Lemma FindLTP_2166 : FindLTP 2166 = ok 999962683.
Proof.
  rewrite FindLTP_run by lia.
  rewrite (run_same IsPrime IsPrime63 (fun x => eq_sym (IsPrime63_eq x))).
  vm_compute. reflexivity.
Qed.

(** In the call [FindLTP(2166)] the write cursor does overtake
    [LTP_IndexProc]: after 8093 steps, in the last digit of order 7, more
    than [BUF_LENGTH] records have been written since the record at
    [LTP_IndexProc].  Those it replaces have been read for the last time:
    the records still to be read are fewer than [BUF_LENGTH]. *)
Lemma write_cursor_overtakes_LTP_IndexProc :
  exists c t,
    visits 2166 c t
    /\ BUF_LENGTH < written t - proc_no t
    /\ order c = 7 /\ i c = 9
    /\ live c t < BUF_LENGTH.
Proof.
  assert (H : match advance IsPrime 2166 (Z.to_nat 8093)
                      first_locals first_tally with
              | Some (c, t) =>
                  (BUF_LENGTH <? written t - proc_no t)
                  && (order c =? 7) && (i c =? 9)
                  && (live c t <? BUF_LENGTH)
              | None => false
              end = true).
  { rewrite (advance_same IsPrime IsPrime63
               (fun x => eq_sym (IsPrime63_eq x))).
    vm_compute. reflexivity. }
  destruct (advance IsPrime 2166 (Z.to_nat 8093) first_locals first_tally)
    as [[c t] |] eqn:E; [| discriminate].
  repeat (apply andb_true_iff in H as [H ?]).
  exists c, t. split.
  - split; [vm_compute; reflexivity |].
    change (u16 2166) with 2166. now apply advance_reaches with (1 := E).
  - repeat split;
      first [now apply Z.ltb_lt | now apply Z.eqb_eq].
Qed.

(** ** Left-truncatable primes *)

Lemma In_digits (i : Z) : In i [1; 2; 3; 4; 5; 6; 7; 8; 9] <-> 1 <= i <= 9.
Proof. cbn [In]. lia. Qed.

Lemma extend_In (p : Z -> bool) (d : nat) (L : list Z) (w : Z) :
  In w (extend p d L)
  <-> exists i x, 1 <= i <= 9 /\ In x L /\ w = i * 10 ^ Z.of_nat d + x
                  /\ p w = true.
Proof.
  unfold extend. rewrite in_flat_map. split.
  - intros (i & Hi & Hw). apply filter_In in Hw as [Hw Hp].
    apply in_map_iff in Hw as (x & Hx & HL).
    exists i, x. rewrite <- In_digits. auto.
  - intros (i & x & Hi & HL & Hw & Hp). exists i.
    rewrite In_digits. split; [assumption |].
    apply filter_In. split; [| assumption].
    apply in_map_iff. exists x. auto.
Qed.

Lemma left_truncatable_range (d : nat) (v : Z) :
  left_truncatable d v -> 0 <= v < 10 ^ Z.of_nat d.
Proof.
  destruct d as [| d]; cbn [left_truncatable].
  - intros ->. cbn. lia.
  - intros [H _]. pose proof (Z.pow_pos_nonneg 10 (Z.of_nat d)). lia.
Qed.

(** A left-truncatable prime below [10 ^ D] has at most [D] digits. *)
Lemma left_truncatable_digits (d D : nat) (w : Z) :
  left_truncatable d w -> w < 10 ^ Z.of_nat D -> (d <= D)%nat.
Proof.
  intros Hw Hlt. destruct d as [| d]; [lia |].
  destruct Hw as [[Hlo _] _].
  destruct (Nat.le_gt_cases (S d) D) as [| Hgt]; [assumption | exfalso].
  assert (10 ^ Z.of_nat D <= 10 ^ Z.of_nat d)
    by (apply Z.pow_le_mono_r; lia).
  lia.
Qed.

(** With trial division for the test, the generator lists the
    left-truncatable primes. *)
Lemma level_spec (d : nat) :
  forall w, In w (level trial_division d) <-> left_truncatable d w.
Proof.
  induction d as [| d IH]; intro w.
  - cbn. intuition.
  - cbn [level left_truncatable]. rewrite extend_In.
    assert (Hpos : 0 < 10 ^ Z.of_nat d) by (apply Z.pow_pos_nonneg; lia).
    assert (Hs : 10 ^ Z.of_nat (S d) = 10 * 10 ^ Z.of_nat d).
    { rewrite Nat2Z.inj_succ. apply Z.pow_succ_r. lia. }
    split.
    + intros (i & x & Hi & Hx & -> & Hp).
      apply IH in Hx. pose proof (left_truncatable_range d x Hx) as Hr.
      split; [nia |]. split; [now apply trial_division_prime |].
      rewrite Z.add_comm, Z.mod_add by lia. now rewrite Z.mod_small.
    + intros (Hr & Hp & Hx).
      exists (w / 10 ^ Z.of_nat d), (w mod 10 ^ Z.of_nat d).
      pose proof (Z.div_mod w (10 ^ Z.of_nat d) ltac:(lia)) as Hdm.
      pose proof (Z.mod_pos_bound w (10 ^ Z.of_nat d) Hpos) as Hm.
      split; [nia |]. split; [now apply IH |].
      split; [lia |]. now apply trial_division_prime.
Qed.

Lemma level_same (p q : Z -> bool) (d : nat) :
  (forall x, p x = q x) -> level p d = level q d.
Proof.
  intro H. induction d as [| d IH]; [reflexivity |].
  cbn [level]. rewrite IH. unfold extend.
  apply flat_map_ext. intro i. now apply filter_ext.
Qed.

Lemma ltps_In (D : nat) (v : Z) :
  In v (ltps trial_division D)
  <-> exists d, (1 <= d <= D)%nat /\ left_truncatable d v.
Proof.
  unfold ltps. rewrite in_flat_map. split.
  - intros (d & Hd & Hv). apply in_seq in Hd. apply level_spec in Hv.
    exists d. split; [lia | assumption].
  - intros (d & Hd & Hv). exists d. rewrite in_seq, level_spec.
    split; [lia | assumption].
Qed.

Lemma ltps_32_In (v : Z) :
  In v ltps_32
  <-> v < 2 ^ 32 /\ exists d, (1 <= d <= 10)%nat /\ left_truncatable d v.
Proof.
  unfold ltps_32. rewrite filter_In, ltps_In. unfold fits_u32.
  rewrite Z.ltb_lt. tauto.
Qed.

(** Every left-truncatable prime below [2 ^ 32] is in the list. *)
Lemma left_truncatable_32 (d : nat) (v : Z) :
  (1 <= d)%nat -> left_truncatable d v -> v < 2 ^ 32 -> In v ltps_32.
Proof.
  intros Hd Hv Hlt. apply ltps_32_In. split; [assumption |].
  exists d. split; [| assumption]. split; [assumption |].
  apply (left_truncatable_digits d 10 v Hv).
  change (10 ^ Z.of_nat 10) with 10000000000.
  change (2 ^ 32) with 4294967296 in Hlt. lia.
Qed.

Lemma left_truncatable_13 : left_truncatable 2 13.
Proof. apply level_spec. vm_compute. auto 20. Qed.

(** ** Trial division on machine integers *)

Lemma no_divisor63_refines (count : nat) :
  forall d n,
    0 < to_Z d ->
    (to_Z d + Z.of_nat count) * (to_Z d + Z.of_nat count) < wB ->
    no_divisor63 count d n = no_divisor count (to_Z d) (to_Z n).
Proof.
  induction count as [| count IH]; intros d n Hd Hb; [reflexivity |].
  cbn [no_divisor63 no_divisor].
  pose proof (to_Z_bounded d) as Hbd.
  rewrite int_ltb_to_Z, int_eqb_to_Z, mul_spec, mod_spec.
  rewrite (Z.mod_small (to_Z d * to_Z d)) by nia.
  change (to_Z 0) with 0.
  assert (Hd1 : to_Z (d + 1)%uint63 = to_Z d + 1).
  { rewrite add_spec. change (to_Z 1) with 1. apply Z.mod_small. nia. }
  rewrite IH; rewrite Hd1; [reflexivity | lia | nia].
Qed.

(** The number of divisors tried does not matter, once it is enough. *)
Lemma no_divisor_count (c1 c2 : nat) (d n : Z) :
  0 < d ->
  n < (d + Z.of_nat c1) * (d + Z.of_nat c1) ->
  n < (d + Z.of_nat c2) * (d + Z.of_nat c2) ->
  no_divisor c1 d n = no_divisor c2 d n.
Proof.
  intros Hd H1 H2. apply eq_true_iff_eq.
  now rewrite !no_divisor_spec.
Qed.

Lemma trial_division63_eq (count : nat) (n : Z) :
  Z.of_nat count = 1048576 ->
  trial_division63 count n = trial_division n.
Proof.
  intro Hc. unfold trial_division63.
  destruct (Z.leb_spec 0 n) as [H0 | H0]; [| reflexivity].
  destruct (Z.ltb_spec n (2 ^ 40)) as [Hn | Hn]; [| reflexivity].
  cbn [andb]. unfold trial_division.
  destruct (Z.ltb_spec 1 n) as [H1 | H1]; [| reflexivity].
  cbn [andb].
  change (2 ^ 40) with 1099511627776 in Hn.
  rewrite no_divisor63_refines.
  - rewrite to_Z_2, of_Z_spec.
    rewrite Z.mod_small by (change wB with 9223372036854775808; lia).
    apply no_divisor_count; rewrite ?Z2Nat.id; nia.
  - rewrite to_Z_2. lia.
  - rewrite to_Z_2, Hc. change wB with 9223372036854775808. lia.
Qed.

(** ** The primes a run counts *)

Section CollectFacts.

Variable isprime : Z -> res bool.

(** The list collected for [T] holds the result of the run for every index
    up to [T] that is still ahead, at the place of the index. *)
Lemma collect_nth (T : Z) (fuel : nat) :
  T < 65536 ->
  forall c L,
    collect isprime T fuel c = Some L ->
    0 <= PrimesCount c < T ->
    Z.of_nat (length L) = T - PrimesCount c
    /\ forall n, PrimesCount c < n <= T ->
                 run isprime n fuel c
                 = ok (nth (Z.to_nat (n - PrimesCount c - 1)) L 0).
Proof.
  intro HT.
  induction fuel as [| fuel IH]; intros c L Hc Hpc; [discriminate |].
  cbn [collect] in Hc.
  pose proof (u16_succ_le (PrimesCount c) ltac:(lia)) as Hle.
  destruct (step isprime T c) as [[v | c'] | f] eqn:Hst; [| | discriminate].
  - destruct (Z.eqb_spec (u16 (PrimesCount c + 1)) T) as [E | E];
      [| discriminate].
    injection Hc as <-. split; [cbn [length]; lia |].
    intros n Hn. assert (n = T) by lia. subst n.
    cbn [run]. rewrite Hst. cbn [bind].
    replace (Z.to_nat (T - PrimesCount c - 1)) with 0%nat by lia.
    reflexivity.
  - destruct (Z.eqb_spec (PrimesCount c') (PrimesCount c)) as [E | E].
    + destruct (IH c' L Hc ltac:(lia)) as [Hlen Hrun].
      split; [lia |]. intros n Hn.
      destruct (step_continue isprime n T c c' Hst) as [[_ Hn'] | [Hpc' _]].
      2:{ exfalso. rewrite E in Hpc'. symmetry in Hpc'.
          exact (u16_succ_neq _ Hpc'). }
      cbn [run]. rewrite Hn'. cbn [bind]. rewrite <- E. apply Hrun. lia.
    + destruct (candidate c) as [num | f] eqn:Hnum; [| discriminate].
      destruct (collect isprime T fuel c') as [L' |] eqn:Hc'; [| discriminate].
      injection Hc as <-.
      destruct (step_continue isprime T T c c' Hst)
        as [[Hpc' _] | (Hpc' & num' & Hcand & HstT)]; [contradiction |].
      rewrite Hst in HstT.
      destruct (Z.eqb_spec (PrimesCount c') T) as [ET | ET]; [discriminate |].
      rewrite u16_small in Hpc' by lia.
      destruct (IH c' L' Hc' ltac:(lia)) as [Hlen Hrun].
      split; [cbn [length]; lia |]. intros n Hn.
      destruct (step_continue isprime n T c c' Hst)
        as [[Hpc'' _] | (_ & num'' & Hcand' & Hstn)]; [contradiction |].
      rewrite Hnum in Hcand'. injection Hcand' as <-.
      cbn [run]. rewrite Hstn.
      destruct (Z.eqb_spec (PrimesCount c') n) as [En | En]; cbn [bind].
      * replace (Z.to_nat (n - PrimesCount c - 1)) with 0%nat by lia.
        reflexivity.
      * rewrite Hrun by lia.
        replace (Z.to_nat (n - PrimesCount c - 1))
          with (S (Z.to_nat (n - PrimesCount c' - 1))) by lia.
        reflexivity.
Qed.

(** A step that counts a prime tested a candidate the test accepts. *)
Lemma step_counts (T : Z) (c c' : locals) :
  step isprime T c = ok (inr c') -> PrimesCount c' <> PrimesCount c ->
  exists num, candidate c = ok num /\ isprime num = ok true.
Proof.
  unfold step. destruct (u c =? LTP_IndexOldFree c).
  - intros H Hpc. injection H as H. apply next_digit_count in H. contradiction.
  - unfold_body.
    destruct (candidate c) as [num | f]; [| discriminate]. cbn [bind].
    destruct (isprime num) as [[|] | f] eqn:Ep; [| | discriminate]; cbn [bind].
    + intros _ _. now exists num.
    + intros H Hpc. injection H as <-. contradiction.
Qed.

(** What a successful [drains] saw at its first step. *)
Lemma drains_inv (bound : Z) (fuel : nat) (c : locals) :
  drains isprime bound fuel c = true ->
  exists fuel', fuel = S fuel'
    /\ ((exists v, step isprime 0 c = ok (inl v)
                   /\ (u c =? LTP_IndexOldFree c) = true /\ v = 0
                   /\ PrimesCount c = bound)
        \/ (exists c', step isprime 0 c = ok (inr c')
                       /\ PrimesCount c' <= bound
                       /\ drains isprime bound fuel' c' = true)).
Proof.
  destruct fuel as [| fuel]; [discriminate |]. cbn [drains]. intro H.
  exists fuel. split; [reflexivity |].
  destruct (step isprime 0 c) as [[v | c'] | f]; [| | discriminate].
  - apply andb_true_iff in H as [H H3]. apply andb_true_iff in H as [H1 H2].
    left. exists v.
    repeat split; [assumption | now apply Z.eqb_eq | now apply Z.eqb_eq].
  - apply andb_true_iff in H as [H1 H2]. right. exists c'.
    repeat split; [now apply Z.leb_le | assumption].
Qed.

(** An index above the number of primes the search counts: the run goes
    through every order and comes to [return 0]. *)
Lemma drains_zero (bound : Z) (fuel : nat) :
  forall c, drains isprime bound fuel c = true ->
            forall n, bound < n -> run isprime n fuel c = ok 0.
Proof.
  induction fuel as [| fuel IH]; intros c H n Hn; [discriminate |].
  apply drains_inv in H as (fuel' & Ef & H). injection Ef as <-.
  cbn [run].
  destruct H as [(v & Hst & Hu & -> & _) | (c' & Hst & Hpc & Hd)].
  - unfold step in Hst |- *. rewrite Hu in Hst |- *. rewrite Hst. reflexivity.
  - destruct (step_continue isprime n 0 c c' Hst)
      as [[_ ->] | (_ & num & _ & ->)].
    + cbn [bind]. now apply IH.
    + destruct (Z.eqb_spec (PrimesCount c') n); [lia |].
      cbn [bind]. now apply IH.
Qed.

(** An index up to that number: the run returns a candidate the test
    accepted. *)
Lemma drains_counted (bound : Z) (fuel : nat) :
  bound < 65536 ->
  forall c, drains isprime bound fuel c = true ->
            0 <= PrimesCount c ->
            forall n, PrimesCount c < n <= bound ->
                      exists num, run isprime n fuel c = ok num
                                  /\ isprime num = ok true.
Proof.
  intro Hb.
  induction fuel as [| fuel IH]; intros c H Hc n Hn; [discriminate |].
  apply drains_inv in H as (fuel' & Ef & H). injection Ef as <-.
  cbn [run].
  destruct H as [(v & Hst & Hu & -> & Hpc) | (c' & Hst & Hpc & Hd)]; [lia |].
  destruct (step_continue isprime n 0 c c' Hst)
    as [[Hsame ->] | (Hnext & num & Hcand & ->)].
  - cbn [bind]. apply IH; [assumption | lia | lia].
  - rewrite u16_small in Hnext by lia.
    destruct (step_counts 0 c c' Hst ltac:(lia)) as (num' & Hcand' & Hp).
    rewrite Hcand in Hcand'. injection Hcand' as <-.
    destruct (Z.eqb_spec (PrimesCount c') n); cbn [bind].
    + now exists num.
    + apply IH; [assumption | lia | lia].
Qed.

Section SameCount.

Variable isprime' : Z -> res bool.
Hypothesis same : forall x, isprime x = isprime' x.

Lemma collect_same (T : Z) (fuel : nat) :
  forall c, collect isprime T fuel c = collect isprime' T fuel c.
Proof.
  induction fuel as [| fuel IH]; intro c; [reflexivity |].
  cbn [collect]. rewrite (step_same isprime isprime' same).
  destruct (step isprime' T c) as [[v | c'] | f]; try reflexivity.
  now rewrite IH.
Qed.

Lemma drains_same (bound : Z) (fuel : nat) :
  forall c, drains isprime bound fuel c = drains isprime' bound fuel c.
Proof.
  induction fuel as [| fuel IH]; intro c; [reflexivity |].
  cbn [drains]. rewrite (step_same isprime isprime' same).
  destruct (step isprime' 0 c) as [[v | c'] | f]; try reflexivity.
  now rewrite IH.
Qed.

End SameCount.

End CollectFacts.

(** ** FindLTP against the left-truncatable primes *)

(** The primes the run for index 2350 counts are the left-truncatable primes
    of two to ten digits below [2 ^ 32], in the generator's order: both
    sides are evaluated on machine integers. *)
Lemma collect_2350_machine (count : nat) :
  count = Z.to_nat 1048576 ->
  collect IsPrime63 2350 search_fuel first_locals
  = Some (filter fits_u32
            (flat_map (level (trial_division63 count)) (seq 2 9))).
Proof. intros ->. vm_compute. reflexivity. Qed.

Lemma collect_2350 :
  collect IsPrime 2350 search_fuel first_locals
  = Some (filter fits_u32 (flat_map (level trial_division) (seq 2 9))).
Proof.
  rewrite (collect_same IsPrime IsPrime63 (fun x => eq_sym (IsPrime63_eq x))).
  rewrite (collect_2350_machine _ eq_refl).
  apply f_equal. apply f_equal. apply flat_map_ext. intro d.
  apply level_same. intro x. apply trial_division63_eq.
  apply Z2Nat.id. discriminate.
Qed.

(** The primes that run counts are in ascending order. *)
Lemma sweep_2350 :
  sweep IsPrime 2350 search_fuel first_locals first_tally 7 = true.
Proof.
  rewrite (sweep_same IsPrime IsPrime63 (fun x => eq_sym (IsPrime63_eq x))).
  vm_compute. reflexivity.
Qed.

(** The search counts 2709 primes in all before it leaves the last order. *)
Lemma drains_2709 : drains IsPrime 2709 search_fuel first_locals = true.
Proof.
  rewrite (drains_same IsPrime IsPrime63 (fun x => eq_sym (IsPrime63_eq x))).
  vm_compute. reflexivity.
Qed.

Lemma level_1 : level trial_division 1 = [2; 3; 5; 7].
Proof. vm_compute. reflexivity. Qed.

Lemma ltps_32_split :
  ltps_32
  = [2; 3; 5; 7]
    ++ filter fits_u32 (flat_map (level trial_division) (seq 2 9)).
Proof.
  unfold ltps_32, ltps. change (seq 1 10) with (1 :: seq 2 9)%nat.
  cbn [flat_map]. rewrite filter_app, level_1.
  change (filter fits_u32 [2; 3; 5; 7]) with [2; 3; 5; 7]. reflexivity.
Qed.

Lemma PrimesCount_first : PrimesCount first_locals = 4.
Proof. reflexivity. Qed.

Lemma collect_2350_nth :
  Z.of_nat (length (filter fits_u32
                      (flat_map (level trial_division) (seq 2 9)))) = 2346
  /\ forall n, 4 < n <= 2350 ->
               run IsPrime n search_fuel first_locals
               = ok (nth (Z.to_nat (n - 5))
                       (filter fits_u32
                          (flat_map (level trial_division) (seq 2 9))) 0).
Proof.
  destruct (collect_nth IsPrime 2350 search_fuel ltac:(lia) first_locals _
              collect_2350) as [Hlen Hrun].
  - rewrite PrimesCount_first. lia.
  - rewrite PrimesCount_first in Hlen, Hrun. split; [exact Hlen |].
    intros n Hn. rewrite Hrun by lia. do 2 f_equal. lia.
Qed.

(** There are 2350 left-truncatable primes below [2 ^ 32]. *)
Lemma ltps_32_length : length ltps_32 = 2350%nat.
Proof.
  rewrite ltps_32_split, length_app.
  destruct collect_2350_nth as [Hlen _]. cbn [length]. lia.
Qed.

(** [FindLTP(n)] is the entry [n] of the list, for every [n] up to its
    length. *)
Lemma FindLTP_nth (n : Z) :
  1 <= n <= 2350 -> FindLTP n = ok (nth (Z.to_nat (n - 1)) ltps_32 0).
Proof.
  intro Hn. rewrite ltps_32_split.
  destruct (Z.le_gt_cases n 4) as [Hs | Hr].
  - rewrite FindLTP_seed by lia. rewrite app_nth1 by (cbn [length]; lia).
    reflexivity.
  - rewrite FindLTP_run by lia. rewrite app_nth2 by (cbn [length]; lia).
    destruct collect_2350_nth as [_ Hrun]. rewrite Hrun by lia.
    do 2 f_equal. cbn [length]. lia.
Qed.

Lemma FindLTP_in_ltps_32 (n : Z) :
  1 <= n <= 2350 -> exists v, FindLTP n = ok v /\ In v ltps_32.
Proof.
  intro Hn. rewrite FindLTP_nth by assumption.
  eexists. split; [reflexivity |].
  apply nth_In. rewrite ltps_32_length. lia.
Qed.

Lemma ltps_32_in_FindLTP (v : Z) :
  In v ltps_32 -> exists n, 1 <= n <= 2350 /\ FindLTP n = ok v.
Proof.
  intro Hin. apply (In_nth _ _ 0) in Hin as (k & Hk & Hnth).
  rewrite ltps_32_length in Hk.
  exists (Z.of_nat k + 1). split; [lia |].
  rewrite FindLTP_nth by lia.
  replace (Z.to_nat (Z.of_nat k + 1 - 1)) with k by lia. now rewrite Hnth.
Qed.

(** The results are in the order of the indices, up to index 2350. *)
Lemma FindLTP_ascending (n1 n2 v1 v2 : Z) :
  1 <= n1 -> n1 < n2 -> n2 <= 2350 ->
  FindLTP n1 = ok v1 -> FindLTP n2 = ok v2 -> v1 < v2.
Proof.
  intros H1 H12 H2 E1 E2.
  assert (Hc : 0 <= PrimesCount first_locals)
    by (rewrite PrimesCount_first; lia).
  destruct (Z.le_gt_cases n2 4) as [Hs2 | Hr2].
  - rewrite (FindLTP_seed n1) in E1 by lia.
    rewrite (FindLTP_seed n2) in E2 by lia.
    assert (Ev1 : v1 = nth (Z.to_nat (n1 - 1)) [2; 3; 5; 7] 0) by congruence.
    assert (Ev2 : v2 = nth (Z.to_nat (n2 - 1)) [2; 3; 5; 7] 0) by congruence.
    rewrite Ev1, Ev2. apply seeds_ascending; lia.
  - rewrite (FindLTP_run n2) in E2 by lia.
    destruct (Z.le_gt_cases n1 4) as [Hs1 | Hr1].
    + rewrite (FindLTP_seed n1) in E1 by lia.
      assert (Ev1 : v1 = nth (Z.to_nat (n1 - 1)) [2; 3; 5; 7] 0) by congruence.
      destruct (sweep_results IsPrime 2350 search_fuel _ _ 7 sweep_2350 Hc n2)
        as (w2 & Hw2 & Hlt); [rewrite PrimesCount_first; lia |].
      rewrite E2 in Hw2. injection Hw2 as <-.
      pose proof (seeds_at_most_7 n1 ltac:(lia)). rewrite Ev1. lia.
    + rewrite (FindLTP_run n1) in E1 by lia.
      destruct (sweep_monotone IsPrime 2350 search_fuel _ _ 7 sweep_2350 Hc
                  n1 n2) as (w1 & w2 & Hw1 & Hw2 & Hlt);
        [rewrite PrimesCount_first; lia | lia |].
      rewrite E1 in Hw1. rewrite E2 in Hw2.
      injection Hw1 as <-. injection Hw2 as <-. assumption.
Qed.

(** The results for the indices [main] accepts have at most nine digits. *)
Lemma FindLTP_nine_digits (n v : Z) :
  1 <= n <= 2166 -> FindLTP n = ok v -> v < 10 ^ 9.
Proof.
  intros Hn Hv. change (10 ^ 9) with 1000000000.
  destruct (Z.eq_dec n 2166) as [-> | Hne].
  - rewrite FindLTP_2166 in Hv. injection Hv as <-. lia.
  - pose proof (FindLTP_ascending n 2166 v 999962683 ltac:(lia) ltac:(lia)
                  ltac:(lia) Hv FindLTP_2166).
    lia.
Qed.

Lemma FindLTP_u16 (n : Z) : FindLTP (u16 n) = FindLTP n.
Proof. unfold FindLTP, FindLTP_with. now rewrite u16_u16. Qed.

Lemma IsPrime_0 : IsPrime 0 = ok false.
Proof. reflexivity. Qed.

(** ** The length of the buffer *)

Lemma write_nth_length (l : list Z) :
  forall idx x l', write_nth l idx x = Some l' -> length l' = length l.
Proof.
  induction l as [| h t IH]; intros idx x l' H; [destruct idx; discriminate |].
  destruct idx as [| idx]; cbn in H.
  - injection H as <-. reflexivity.
  - destruct (write_nth t idx x) as [t' |] eqn:E; [| discriminate].
    injection H as <-. cbn. f_equal. now apply (IH idx x).
Qed.

Lemma write_length (l l' : list Z) (idx x : Z) :
  write l idx x = ok l' -> length l' = length l.
Proof.
  unfold write. destruct (idx <? 0); [discriminate |].
  destruct (write_nth l (Z.to_nat idx) x) as [l1 |] eqn:E; [| discriminate].
  intro H. injection H as <-. now apply write_nth_length in E.
Qed.

Lemma step_length (isprime : Z -> res bool) (n : Z) (c c' : locals) :
  step isprime n c = ok (inr c') -> length (LTP_Buf c') = length (LTP_Buf c).
Proof.
  intro Hst.
  destruct (Z.eq_dec (LTP_IndexFree c') (LTP_IndexFree c)) as [Hsame | Hnew].
  - unfold step in Hst. destruct (u c =? LTP_IndexOldFree c).
    + injection Hst as Hst. unfold_control_in Hst.
      destruct (u16 (i c + 1) <? 10).
      * injection Hst as <-. reflexivity.
      * destruct (order c <? 9); [| discriminate].
        injection Hst as <-. reflexivity.
    + unfold_body_in Hst.
      destruct (candidate c) as [num | f]; [| discriminate].
      cbn [bind] in Hst.
      destruct (isprime num) as [[|] | f]; [| | discriminate];
        cbn [bind] in Hst.
      * destruct (u16 (PrimesCount c + 1) =? n); [discriminate |].
        destruct (extend_loop isprime 9 num _ 1) as [v | f]; [| discriminate].
        cbn [bind] in Hst. destruct (v <? 10).
        -- destruct (write _ _ _) as [buf | f] eqn:Ew; [| discriminate].
           cbn [bind] in Hst. injection Hst as <-. cbn [LTP_Buf].
           now apply write_length in Ew.
        -- injection Hst as <-. reflexivity.
      * injection Hst as <-. reflexivity.
  - destruct (step_store isprime n c c' Hst Hnew)
      as (_ & _ & num & v & _ & _ & _ & _ & Ew).
    now apply write_length in Ew.
Qed.

(** ** The range of ModulusPow *)

Lemma mulmod64_range (a b m r : Z) :
  0 < m -> mulmod64 a b m = ok r -> 0 <= r < m.
Proof.
  intros Hm. unfold mulmod64. rewrite !umod_ok by lia. cbn [bind].
  rewrite umod_ok by lia. intro H. injection H as <-.
  apply Z.mod_pos_bound. lia.
Qed.

(** The loop leaves [result] as it is on a zero exponent, and otherwise
    returns a residue, whether or not the products wrap. *)
Lemma ModulusPow_loop_range (fuel : nat) :
  forall base exp md result r,
    0 < md -> 0 <= exp < 2 ^ Z.of_nat fuel ->
    ModulusPow_loop fuel base exp md result = ok r ->
    if exp =? 0 then r = result else 0 <= r < md.
Proof.
  induction fuel as [| fuel IH]; intros base exp md result r Hm He H.
  - assert (exp = 0) by (change (2 ^ Z.of_nat 0) with 1 in He; lia).
    subst exp. cbn in H. now injection H.
  - cbn [ModulusPow_loop] in H.
    destruct (Z.ltb_spec 0 exp) as [Hpos | Hz].
    2:{ assert (exp = 0) by lia. subst exp. now injection H. }
    destruct (Z.eqb_spec exp 0) as [| _]; [lia |].
    rewrite land_1_mod, shiftr_1_div in H.
    assert (Hdm : exp = 2 * (exp / 2) + exp mod 2) by (apply Z.div_mod; lia).
    assert (Hbit : 0 <= exp mod 2 < 2) by (apply Z.mod_pos_bound; lia).
    assert (Hhalf : 0 <= exp / 2 < 2 ^ Z.of_nat fuel).
    { rewrite Nat2Z.inj_succ, Z.pow_succ_r in He by lia. lia. }
    destruct (Z.eqb_spec (exp mod 2) 0) as [Hb | Hb]; cbn [bind] in H.
    + destruct (mulmod64 base base md) as [b1 | f]; [| discriminate].
      cbn [bind] in H. apply IH in H; [| assumption | assumption].
      destruct (Z.eqb_spec (exp / 2) 0); [lia | assumption].
    + destruct (mulmod64 result base md) as [r1 | f] eqn:E1; [| discriminate].
      apply mulmod64_range in E1; [| assumption]. cbn [bind] in H.
      destruct (mulmod64 base base md) as [b1 | f]; [| discriminate].
      cbn [bind] in H. apply IH in H; [| assumption | assumption].
      destruct (Z.eqb_spec (exp / 2) 0); [now subst r | assumption].
Qed.

(** ** The halving loop of MillerRabin *)

Lemma IsEven_mod (d : Z) : 0 <= d < 2 ^ 32 -> IsEven d = (d mod 2 =? 0).
Proof.
  intro H. unfold IsEven. rewrite u32_small by lia.
  now destruct (d mod 2 =? 0).
Qed.

(** On a positive [d] the loop ends with the odd part of [d] and the number
    of halvings added to [s]. *)
Lemma MillerRabin_halve_spec (fuel : nat) :
  forall d s,
    0 < d < 2 ^ Z.of_nat fuel -> (fuel <= 32)%nat ->
    0 <= s -> s + Z.of_nat fuel < 65536 ->
    exists d' k,
      MillerRabin_halve fuel d s = ok (d', s + k)
      /\ d = d' * 2 ^ k /\ d' mod 2 = 1 /\ 0 <= k < Z.of_nat fuel.
Proof.
  induction fuel as [| fuel IH]; intros d s Hd Hf Hs Hsf.
  - change (2 ^ Z.of_nat 0) with 1 in Hd. lia.
  - assert (H32 : 2 ^ Z.of_nat (S fuel) <= 2 ^ 32)
      by (apply Z.pow_le_mono_r; lia).
    cbn [MillerRabin_halve]. rewrite IsEven_mod by lia.
    assert (Hdm : d = 2 * (d / 2) + d mod 2) by (apply Z.div_mod; lia).
    assert (Hbit : 0 <= d mod 2 < 2) by (apply Z.mod_pos_bound; lia).
    destruct (Z.eqb_spec (d mod 2) 0) as [He | Ho].
    + rewrite shiftr_1_div. rewrite u16_small by lia.
      destruct (IH (d / 2) (s + 1)) as (d' & k & Hh & Hdk & Hodd & Hk);
        [| lia | lia | lia |].
      { rewrite Nat2Z.inj_succ, Z.pow_succ_r in Hd by lia. lia. }
      exists d', (k + 1). rewrite Hh.
      split; [f_equal; f_equal; lia |].
      split; [| split; [assumption | lia]].
      rewrite Z.pow_add_r, Z.pow_1_r by lia. lia.
    + exists d, 0. split; [now rewrite Z.add_0_r |].
      split; [rewrite Z.pow_0_r; lia |]. split; lia.
Qed.

(** ** The loop of main *)

Lemma main_input_skips (skipped : list Z) (e : Z) (rest : list Z) :
  Forall (fun x => u32 x < 1 \/ 2166 < u32 x) skipped ->
  1 <= u32 e <= 2166 ->
  main_input (skipped ++ e :: rest) = ok (u32 e).
Proof.
  intros Hs He. induction Hs as [| x l Hx _ IH]; cbn [app main_input].
  - destruct (Z.ltb_spec 2166 (u32 e)); [lia |].
    destruct (Z.ltb_spec (u32 e) 1); [lia | reflexivity].
  - destruct (Z.ltb_spec 2166 (u32 x)); [exact IH |].
    destruct (Z.ltb_spec (u32 x) 1); [exact IH | lia].
Qed.

(** The number the loop leaves with is an entry within 1..2166. *)
Lemma main_input_in_range (entries : list Z) (num : Z) :
  main_input entries = ok num ->
  1 <= num <= 2166 /\ exists e, In e entries /\ num = u32 e.
Proof.
  induction entries as [| e rest IH]; cbn [main_input]; [discriminate |].
  destruct (Z.ltb_spec 2166 (u32 e)) as [Hhi | Hhi]; cbn [orb].
  - intro H. destruct (IH H) as [Hr (e' & Hin & He')].
    split; [assumption |]. exists e'. split; [now right | assumption].
  - destruct (Z.ltb_spec (u32 e) 1) as [Hlo | Hlo].
    + intro H. destruct (IH H) as [Hr (e' & Hin & He')].
      split; [assumption |]. exists e'. split; [now right | assumption].
    + intro H. injection H as <-. split; [lia |].
      exists e. split; [now left | reflexivity].
Qed.

(** ** The digit and the power of ten in the search *)

(** [Power(10, k)] does not wrap up to [k = 9]. *)
Lemma Power_10 (k : Z) : 1 <= k <= 9 -> Power 10 k = 10 ^ k.
Proof.
  intro Hk. rewrite Power_spec by lia.
  apply Z.mod_small.
  assert (0 < 10 ^ k) by (apply Z.pow_pos_nonneg; lia).
  assert (10 ^ k <= 10 ^ 9) by (apply Z.pow_le_mono_r; lia).
  change (10 ^ 9) with 1000000000 in *. change (2 ^ 32) with 4294967296. lia.
Qed.

Lemma loop_body_PwVal (isprime : Z -> res bool) (n : Z) (c c' : locals) :
  loop_body isprime n c = ok (inr c') -> PwVal c' = PwVal c.
Proof.
  unfold_body.
  destruct (candidate c) as [num | f]; [| discriminate]. cbn [bind].
  destruct (isprime num) as [[|] | f]; [| | discriminate]; cbn [bind].
  - destruct (u16 (PrimesCount c + 1) =? n); [discriminate |].
    destruct (extend_loop isprime 9 num _ 1) as [v | f]; [| discriminate].
    cbn [bind]. destruct (v <? 10).
    + destruct (write _ _ _) as [buf | f]; [| discriminate]. cbn [bind].
      intro H. injection H as <-. reflexivity.
    + intro H. injection H as <-. reflexivity.
  - intro H. injection H as <-. reflexivity.
Qed.

(** Every step keeps the digit between 1 and 9 and [PwVal] the power of ten
    of the order. *)
Lemma step_digit_power (isprime : Z -> res bool) (n : Z) (c c' : locals) :
  step isprime n c = ok (inr c') ->
  1 <= order c <= 9 /\ 1 <= i c <= 9 /\ PwVal c = 10 ^ order c ->
  1 <= order c' <= 9 /\ 1 <= i c' <= 9 /\ PwVal c' = 10 ^ order c'.
Proof.
  intros Hst (Ho & Hi & Hp). unfold step in Hst.
  destruct (u c =? LTP_IndexOldFree c).
  - injection Hst as Hst. unfold_control_in Hst.
    rewrite (u16_small (i c + 1)) in Hst by lia.
    destruct (Z.ltb_spec (i c + 1) 10) as [Hlt | Hge].
    + injection Hst as <-. cbn. repeat split; (assumption || lia).
    + destruct (Z.ltb_spec (order c) 9) as [Hol | Hog]; [| discriminate].
      injection Hst as <-. cbn.
      rewrite u16_small by lia.
      repeat split; try lia. apply Power_10. lia.
  - pose proof (loop_body_PwVal isprime n c c' Hst) as Hp'.
    apply loop_body_keeps in Hst as (Eo & Ei & _).
    rewrite Eo, Ei, Hp'. auto.
Qed.

(** ** The test before a store *)

(** A step that stores a value stores one for which the loop over [v] found
    a digit: the primality test accepts the sum as the code takes it, in 32
    bits. *)
Lemma store_passed_the_test (isprime : Z -> res bool) (n : Z)
  (c c' : locals) :
  step isprime n c = ok (inr c') ->
  LTP_IndexFree c' <> LTP_IndexFree c ->
  exists x v,
    read (LTP_Buf c') (LTP_IndexFree c) = ok x
    /\ 1 <= v <= 9
    /\ isprime (u32 (x + u32 (Power 10 (order c + 1) * v))) = ok true.
Proof.
  intros Hst Hnew.
  destruct (step_store isprime n c c' Hst Hnew)
    as (_ & _ & num & v & _ & _ & He & Hlt & Hw).
  destruct (extend_loop_found isprime 9 num _ 1 v eq_refl ltac:(lia) He Hlt)
    as [Hv19 Hacc].
  exists num, v. split; [exact (read_write _ _ _ _ Hw) |]. auto.
Qed.

Lemma stored_at_same (isprime isprime' : Z -> res bool) (n : Z) (k : nat) :
  (forall x, isprime x = isprime' x) ->
  stored_at isprime n k = stored_at isprime' n k.
Proof.
  intro same. unfold stored_at.
  rewrite (advance_same isprime isprime' same).
  destruct (advance isprime' n k first_locals first_tally) as [[c t] |];
    [| reflexivity].
  now rewrite (step_same isprime isprime' same).
Qed.

(** What [stored_at] found is a store of the call. *)
Lemma stored_at_visits (n : Z) (k : nat) (x o : Z) :
  4 < n < 65536 ->
  stored_at IsPrime n k = Some (x, o) ->
  exists c c' t,
    visits n c t
    /\ step IsPrime (u16 n) c = ok (inr c')
    /\ LTP_IndexFree c' <> LTP_IndexFree c
    /\ order c = o
    /\ read (LTP_Buf c') (LTP_IndexFree c) = ok x.
Proof.
  intros Hn. unfold stored_at.
  destruct (advance IsPrime n k first_locals first_tally) as [[c t] |] eqn:Ea;
    [| discriminate].
  destruct (step IsPrime n c) as [[v | c'] | f] eqn:Est; try discriminate.
  destruct (Z.eqb_spec (LTP_IndexFree c') (LTP_IndexFree c)) as [| Hnew];
    [discriminate |].
  destruct (read (LTP_Buf c') (LTP_IndexFree c)) as [y | f] eqn:Er;
    [| discriminate].
  intro H. injection H as <- <-.
  exists c, c', t. rewrite u16_small by lia.
  repeat split; try assumption.
  - rewrite u16_small; lia.
  - rewrite u16_small by lia. now apply advance_reaches with (1 := Ea).
Qed.

(** Step 8179 of the call [FindLTP(2166)], at order 8, stores 126934673. *)
Lemma stored_at_8179 :
  stored_at IsPrime 2166 (Z.to_nat 8179) = Some (126934673, 8).
Proof.
  rewrite (stored_at_same IsPrime IsPrime63 2166 _
             (fun x => eq_sym (IsPrime63_eq x))).
  vm_compute. reflexivity.
Qed.

Lemma not_prime_divisor (d n : Z) : 1 < d < n -> (d | n) -> ~ prime n.
Proof.
  intros Hd Hdiv [_ Hrel].
  destruct (Hrel d ltac:(lia)) as [_ _ H].
  specialize (H d (Z.divide_refl d) Hdiv).
  apply Z.divide_1_r_nonneg in H; lia.
Qed.

(** No digit before 126934673 gives a prime. *)
Lemma no_prime_extension_126934673 (v : Z) :
  1 <= v <= 9 -> ~ prime (126934673 + v * 10 ^ 9).
Proof.
  intro Hv.
  assert (E : v = 1 \/ v = 2 \/ v = 3 \/ v = 4 \/ v = 5 \/ v = 6 \/ v = 7
              \/ v = 8 \/ v = 9) by lia.
  destruct E as [-> | [-> | [-> | [-> | [-> | [-> | [-> | [-> | ->]]]]]]]].
  - apply (not_prime_divisor 3); [lia | now exists 375644891].
  - apply (not_prime_divisor 6907); [lia | now exists 307939].
  - apply (not_prime_divisor 43); [lia | now exists 72719411].
  - apply (not_prime_divisor 3); [lia | now exists 1375644891].
  - apply (not_prime_divisor 7); [lia | now exists 732419239].
  - apply (not_prime_divisor 37); [lia | now exists 165592829].
  - apply (not_prime_divisor 3); [lia | now exists 2375644891].
  - apply (not_prime_divisor 11); [lia | now exists 738812243].
  - apply (not_prime_divisor 389); [lia | now exists 23462557].
Qed.

(** * The properties *)

(** ** The first results of the search *)

(** C1, as the claim states it, fails: the fifth, sixth and seventh results
    are not 23, 29 and 31. *)
Lemma first_results_are_not_23_29_31 :
  ~ (FindLTP 5 = ok 23 /\ FindLTP 6 = ok 29 /\ FindLTP 7 = ok 31).
Proof.
  intros [H _].
  assert (E : FindLTP 5 = ok 13) by (vm_compute; reflexivity).
  rewrite E in H. discriminate.
Qed.

(** C1, amended: the first results beyond the seeds are [FindLTP(5) = 13],
    [FindLTP(6) = 17] and [FindLTP(7) = 23]. *)
Theorem FindLTP_5_6_7 :
  FindLTP 5 = ok 13 /\ FindLTP 6 = ok 17 /\ FindLTP 7 = ok 23.
Proof. repeat split; vm_compute; reflexivity. Qed.

(** ** The primality test against trial division *)

(** C2, as the claim states it, fails at 2: trial division finds 2 prime
    and [IsPrime(2)] is false, by the test on even numbers. *)
Lemma IsPrime_2_against_trial_division :
  1 <= 2 <= 10000 /\ trial_division 2 = true /\ IsPrime 2 = ok false.
Proof. repeat split; try lia; vm_compute; reflexivity. Qed.

(** C2, amended: for every n from 1 to 10000 other than 2, [IsPrime(n)]
    returns the verdict of trial division, which is true exactly when n is
    prime. *)
Theorem IsPrime_agrees_with_trial_division (n : Z) :
  1 <= n <= 10000 -> n <> 2 ->
  IsPrime n = ok (trial_division n)
  /\ (IsPrime n = ok true <-> prime n).
Proof.
  intros Hn H2.
  assert (E : IsPrime n = ok (trial_division n)).
  { destruct (Z.eq_dec n 1) as [-> | H1]; [vm_compute; reflexivity |].
    apply (agrees_spec IsPrime _ 3 agrees_3_10000). lia. }
  split; [exact E |].
  rewrite E, <- trial_division_prime. split.
  - intro H. now injection H.
  - intros ->. reflexivity.
Qed.

Lemma IsPrime_agrees_with_trial_division_witness :
  1 <= 97 <= 10000 /\ 97 <> 2
  /\ IsPrime 97 = ok (trial_division 97)
  /\ (IsPrime 97 = ok true <-> prime 97).
Proof.
  split; [lia |]. split; [lia |].
  apply (IsPrime_agrees_with_trial_division 97); lia.
Defined.

(** ** The order of the results *)

(** C3: for all indices [1 <= n1 < n2 <= 2166], [FindLTP(n1)] and
    [FindLTP(n2)] return values, and the first is below the second. *)
Theorem FindLTP_strictly_monotone (n1 n2 : Z) :
  1 <= n1 -> n1 < n2 -> n2 <= 2166 ->
  exists v1 v2, FindLTP n1 = ok v1 /\ FindLTP n2 = ok v2 /\ v1 < v2.
Proof.
  intros H1 H12 H2.
  assert (Hc : 0 <= PrimesCount first_locals) by (cbn; lia).
  destruct (Z.le_gt_cases n2 4) as [Hs2 | Hr2].
  - rewrite (FindLTP_seed n1), (FindLTP_seed n2) by lia.
    do 2 eexists. split; [reflexivity |]. split; [reflexivity |].
    apply seeds_ascending; lia.
  - rewrite (FindLTP_run n2) by lia.
    destruct (Z.le_gt_cases n1 4) as [Hs1 | Hr1].
    + rewrite (FindLTP_seed n1) by lia.
      destruct (sweep_results IsPrime 2166 search_fuel _ _ 7 sweep_2166 Hc n2)
        as (v2 & Hv2 & Hlt); [cbn; lia |].
      do 2 eexists. split; [reflexivity |]. split; [exact Hv2 |].
      pose proof (seeds_at_most_7 n1 ltac:(lia)). lia.
    + rewrite (FindLTP_run n1) by lia.
      apply (sweep_monotone IsPrime 2166 search_fuel _ _ 7 sweep_2166 Hc);
        [cbn; lia | lia].
Qed.

Lemma FindLTP_strictly_monotone_witness :
  1 <= 4 /\ 4 < 5 /\ 5 <= 2166
  /\ exists v1 v2, FindLTP 4 = ok v1 /\ FindLTP 5 = ok v2 /\ v1 < v2.
Proof.
  split; [lia |]. split; [lia |]. split; [lia |].
  apply (FindLTP_strictly_monotone 4 5); lia.
Defined.

(** ** ModulusPow *)

(** C4, as the claim states it, fails in two places.  With modulus 1 and
    exponent 0 the function returns 1, and [0 ^ 0 mod 1] is 0.  With a
    modulus above [2 ^ 32] the 64-bit product wraps: modulo [2 ^ 64 - 1] the
    square of [2 ^ 32] is 1, and the function returns 0. *)
Lemma ModulusPow_differs_from_power :
  (0 < 1 /\ ModulusPow 0 0 1 = ok 1 /\ 0 ^ 0 mod 1 = 0)
  /\ (0 < 2 ^ 64 - 1
      /\ ModulusPow (2 ^ 32) 2 (2 ^ 64 - 1) = ok 0
      /\ (2 ^ 32) ^ 2 mod (2 ^ 64 - 1) = 1).
Proof. repeat split; vm_compute; reflexivity. Qed.

(** C4, amended: for operands below [2 ^ 64] and a modulus with
    [0 < md <= 2 ^ 32], [ModulusPow(base, exp, md)] is 1 when [exp] is 0 and
    [base ^ exp mod md] otherwise; so it is [base ^ exp mod md] in every
    case when [1 < md]. *)
Theorem ModulusPow_power (base exp md : Z) :
  0 <= base < 2 ^ 64 -> 0 <= exp < 2 ^ 64 -> 0 < md <= 2 ^ 32 ->
  ModulusPow base exp md = ok (if exp =? 0 then 1 else base ^ exp mod md)
  /\ (1 < md -> ModulusPow base exp md = ok (base ^ exp mod md)).
Proof.
  intros Hb He Hm.
  pose proof (ModulusPow_spec base exp md Hb He Hm) as E.
  split; [exact E |].
  intro H1. rewrite E. destruct (Z.eqb_spec exp 0) as [-> | _]; [| reflexivity].
  rewrite Z.pow_0_r. f_equal. symmetry. apply Z.mod_small. lia.
Qed.

Lemma ModulusPow_power_witness :
  0 <= 7 < 2 ^ 64 /\ 0 <= 13 < 2 ^ 64 /\ 0 < 1000 <= 2 ^ 32
  /\ ModulusPow 7 13 1000
     = ok (if 13 =? 0 then 1 else 7 ^ 13 mod 1000)
  /\ (1 < 1000 -> ModulusPow 7 13 1000 = ok (7 ^ 13 mod 1000)).
Proof.
  split; [lia |]. split; [lia |]. split; [lia |].
  apply (ModulusPow_power 7 13 1000); lia.
Defined.

(** C5, as the claim states it, fails at exponent 0: [ModulusPow(7, 0, 1)]
    is 1, not 0. *)
Lemma ModulusPow_7_0_1 : ModulusPow 7 0 1 = ok 1 /\ ModulusPow 7 0 1 <> ok 0.
Proof. split; [vm_compute; reflexivity | vm_compute; discriminate]. Qed.

(** C5, amended: for every base and every exponent other than 0,
    [ModulusPow(b, e, 1)] is 0; for exponent 0 it is 1. *)
Theorem ModulusPow_modulus_1 (b e : Z) :
  0 <= b < 2 ^ 64 -> 0 <= e < 2 ^ 64 ->
  ModulusPow b e 1 = ok (if e =? 0 then 1 else 0).
Proof.
  intros Hb He. rewrite ModulusPow_spec by lia.
  destruct (e =? 0); [reflexivity |]. now rewrite Z.mod_1_r.
Qed.

Lemma ModulusPow_modulus_1_witness :
  0 <= 7 < 2 ^ 64 /\ 0 <= 5 < 2 ^ 64
  /\ ModulusPow 7 5 1 = ok (if 5 =? 0 then 1 else 0).
Proof.
  split; [lia |]. split; [lia |].
  apply (ModulusPow_modulus_1 7 5); lia.
Defined.

(** ** The range of the primality test *)

(** C6, as the claim states it, fails: the candidate [2 * 2 ^ 32 + 3] is
    above the last threshold, it is composite (5 divides it), and [IsPrime]
    returns true for it: the parameter keeps its low 32 bits, which are 3. *)
Lemma IsPrime_accepts_above_threshold :
  4759123141 <= 8589934595
  /\ 8589934595 = 5 * 1717986919
  /\ IsPrime 8589934595 = ok true.
Proof. repeat split; try lia; vm_compute; reflexivity. Qed.

(** C6, amended: [IsPrime] takes its candidate as a 32-bit unsigned number,
    so a value at or above 4,759,123,141 is tested through its low 32 bits
    like any other: the verdict is that of [c mod 2 ^ 32], and it is always
    a verdict, never an error. *)
Theorem IsPrime_tests_low_32_bits (c : Z) :
  IsPrime c = IsPrime (c mod 2 ^ 32) /\ exists b, IsPrime c = ok b.
Proof.
  split; [| apply IsPrime_returns].
  apply IsPrime_same_u32. unfold u32, wrap. now rewrite Zmod_mod.
Qed.

(** C9: for every 32-bit n that is even or at most 1, [IsPrime(n)] returns
    false whatever the Miller-Rabin function is: the result is that of
    [IsPrime] with any function in its place, even one that never
    returns. *)
Theorem IsPrime_even_or_small (n : Z) :
  0 <= n < 2 ^ 32 -> n mod 2 = 0 \/ n <= 1 ->
  IsPrime n = ok false
  /\ forall MR, IsPrime_with MR n = ok false.
Proof.
  intros Hn H.
  assert (E : forall MR, IsPrime_with MR n = ok false).
  { intro MR. unfold IsPrime_with. rewrite u32_small by lia.
    destruct H as [H | H].
    - rewrite H. reflexivity.
    - destruct (Z.leb_spec n 1); [| lia]. now rewrite orb_true_r. }
  split; [apply E | exact E].
Qed.

Lemma IsPrime_even_or_small_witness :
  0 <= 1 < 2 ^ 32 /\ (1 mod 2 = 0 \/ 1 <= 1)
  /\ IsPrime 1 = ok false
  /\ forall MR, IsPrime_with MR 1 = ok false.
Proof.
  split; [lia |]. split; [right; lia |].
  apply (IsPrime_even_or_small 1); [lia | right; lia].
Defined.

(** C10: for every 32-bit n, [IsPrime(n)] returns a value, and the last
    range check [n < 4759123141] holds, so the end of the function is not
    reached. *)
Theorem IsPrime_total (n : Z) :
  0 <= n < 2 ^ 32 ->
  (exists b, IsPrime n = ok b)
  /\ (n <? 4759123141) = true
  /\ IsPrime n <> err NoReturnValue.
Proof.
  intro Hn. destruct (IsPrime_returns n) as [b Hb].
  split; [now exists b |]. split; [apply Z.ltb_lt; lia |].
  rewrite Hb. discriminate.
Qed.

Lemma IsPrime_total_witness :
  0 <= 4294967295 < 2 ^ 32
  /\ (exists b, IsPrime 4294967295 = ok b)
  /\ (4294967295 <? 4759123141) = true
  /\ IsPrime 4294967295 <> err NoReturnValue.
Proof.
  split; [lia |]. apply (IsPrime_total 4294967295). lia.
Defined.

(** ** The buffer *)

(** C7 fails on the code.  In the call [FindLTP(2166)] a step at order 8
    stores 126934673 in the buffer, and no digit [v] from 1 to 9 makes
    [126934673 + v * 10 ^ 9] prime.  The test before the store takes the sum
    in [uint32_t]: with [v = 7] it is 2831967377, the low 32 bits of
    7126934673 = 3 * 2375644891, and [IsPrime] accepts it.  The comments of
    the code say the stored value is tail to another LTP. *)
Lemma stored_126934673_has_no_prime_extension :
  exists c c' t,
    visits 2166 c t
    /\ step IsPrime (u16 2166) c = ok (inr c')
    /\ LTP_IndexFree c' <> LTP_IndexFree c
    /\ order c = 8
    /\ read (LTP_Buf c') (LTP_IndexFree c) = ok 126934673
    /\ (forall v, 1 <= v <= 9 ->
                  ~ prime (126934673 + v * 10 ^ (order c + 1)))
    /\ u32 (126934673 + u32 (Power 10 (order c + 1) * 7)) = 2831967377
    /\ IsPrime 2831967377 = ok true.
Proof.
  destruct (stored_at_visits 2166 _ _ _ ltac:(lia) stored_at_8179)
    as (c & c' & t & Hv & Hst & Hnew & Ho & Hr).
  exists c, c', t. rewrite Ho.
  split; [exact Hv |]. split; [exact Hst |]. split; [exact Hnew |].
  split; [reflexivity |]. split; [exact Hr |].
  split; [intros v Hv19; now apply no_prime_extension_126934673 |].
  split; vm_compute; reflexivity.
Qed.

Lemma follow_store (c c' : locals) (t : tally) :
  (u c =? LTP_IndexOldFree c) = false ->
  LTP_IndexFree c' <> LTP_IndexFree c ->
  written (follow c c' t) = written t + 1.
Proof.
  intros Hb Hf. unfold follow. rewrite Hb. cbn.
  destruct (Z.eqb_spec (LTP_IndexFree c') (LTP_IndexFree c));
    [contradiction | reflexivity].
Qed.

(** C8: for every index n from 1 to 2166, at every point of the call
    [FindLTP(n)] at most [BUF_LENGTH] = 680 records are live (written and
    still to be read), and a store never replaces a live record.  The tally
    numbers the records at the cursors, so the store at [LTP_IndexFree]
    writes record [written t] over record [written t - BUF_LENGTH], which is
    before the first record still to be read. *)
Theorem buffer_never_overwrites (n : Z) (c : locals) (t : tally) :
  1 <= n <= 2166 -> visits n c t ->
  live c t <= BUF_LENGTH
  /\ cursors_agree c t
  /\ forall c', step IsPrime n c = ok (inr c') ->
                LTP_IndexFree c' <> LTP_IndexFree c ->
                written t - BUF_LENGTH < first_unread c' (follow c c' t).
Proof.
  intros Hn Hv. pose proof (visits_cursors n c t Hv) as Hcur.
  destruct Hv as [H4 Hr]. rewrite u16_small in H4, Hr by lia.
  assert (Hc : 0 <= PrimesCount first_locals) by (cbn; lia).
  assert (Hlive : forall c1 t1, reaches IsPrime n first_locals first_tally c1 t1 ->
                                live c1 t1 <= BUF_LENGTH).
  { intros c1 t1 Hr1.
    apply (sweep_live IsPrime 2166 search_fuel _ _ 7 sweep_2166 Hc n c1 t1);
      [cbn; lia | exact Hr1]. }
  split; [now apply Hlive |]. split; [exact Hcur |].
  intros c' Hst Hf.
  destruct (step_store IsPrime n c c' Hst Hf) as (Hb & _).
  pose proof (Hlive _ _ (reaches_snoc IsPrime n _ _ _ _ _ Hr Hst)) as Hl.
  unfold live in Hl. rewrite (follow_store c c' t Hb Hf) in Hl. lia.
Qed.

Lemma buffer_never_overwrites_witness :
  1 <= 6 <= 2166
  /\ visits 6 second_locals (follow first_locals second_locals first_tally)
  /\ live second_locals (follow first_locals second_locals first_tally)
     <= BUF_LENGTH
  /\ cursors_agree second_locals
       (follow first_locals second_locals first_tally)
  /\ forall c', step IsPrime 6 second_locals = ok (inr c') ->
                LTP_IndexFree c' <> LTP_IndexFree second_locals ->
                written (follow first_locals second_locals first_tally)
                - BUF_LENGTH
                < first_unread c'
                    (follow second_locals c'
                       (follow first_locals second_locals first_tally)).
Proof.
  assert (H1 : visits 6 second_locals
                 (follow first_locals second_locals first_tally)).
  { split; [vm_compute; reflexivity |].
    eapply reaches_step; [vm_compute; reflexivity | apply reaches_here]. }
  split; [lia |]. split; [exact H1 |].
  apply (buffer_never_overwrites 6 second_locals _ ltac:(lia) H1).
Defined.

(** * Further properties of the program *)

(** ** Power *)

(** X1: [Power(val, n)] is [val ^ n] modulo [2 ^ 32], for every 32-bit
    [val] and every 8-bit [n], [n = 0] giving 1. *)
Theorem Power_is_power (val n : Z) :
  Power val n = (u32 val ^ u8 n) mod 2 ^ 32.
Proof.
  pose proof (u32_range val) as Hv.
  pose proof (wrap_range 8 n ltac:(lia)) as Hn. fold (u8 n) in Hn.
  change (2 ^ 8) with 256 in Hn.
  destruct (Z.eq_dec (u8 n) 0) as [E | E].
  - unfold Power. rewrite E. reflexivity.
  - rewrite <- (Power_spec (u32 val) (u8 n)) by lia.
    unfold Power. unfold u32, u8. now rewrite !wrap_wrap.
Qed.

(** ** ModulusPow on every modulus *)

(** X2: [ModulusPow] divides by zero exactly when its 64-bit modulus is 0,
    and returns a value on every other modulus. *)
Theorem ModulusPow_divides_by_zero_iff (base exp md : Z) :
  (ModulusPow base exp md = err DivisionByZero <-> u64 md = 0)
  /\ ((exists r, ModulusPow base exp md = ok r) <-> u64 md <> 0).
Proof.
  destruct (Z.eq_dec (u64 md) 0) as [E | E].
  - assert (H : ModulusPow base exp md = err DivisionByZero).
    { unfold ModulusPow. rewrite E. reflexivity. }
    rewrite H. split; split; try easy. intros [r Hr]. discriminate.
  - destruct (ModulusPow_returns base exp md E) as [r Hr]. rewrite Hr.
    split; split; try easy. eauto.
Qed.

(** X3: on a modulus other than 0 the result of [ModulusPow] is below the
    modulus when the exponent is not 0, also when the 64-bit products wrap,
    and it is 1 when the exponent is 0. *)
Theorem ModulusPow_below_modulus (base exp md : Z) :
  u64 md <> 0 ->
  exists r, ModulusPow base exp md = ok r
            /\ if u64 exp =? 0 then r = 1 else 0 <= r < u64 md.
Proof.
  intro Hm. destruct (ModulusPow_returns base exp md Hm) as [r Hr].
  exists r. split; [assumption |].
  pose proof (wrap_range 64 md ltac:(lia)) as Hmd. fold (u64 md) in Hmd.
  pose proof (wrap_range 64 exp ltac:(lia)) as Hexp. fold (u64 exp) in Hexp.
  unfold ModulusPow in Hr. rewrite umod_ok in Hr by exact Hm.
  cbn [bind] in Hr.
  apply ModulusPow_loop_range in Hr; [assumption | lia | exact Hexp].
Qed.

Lemma ModulusPow_below_modulus_witness :
  u64 (2 ^ 64 - 1) <> 0
  /\ exists r, ModulusPow (2 ^ 32) 2 (2 ^ 64 - 1) = ok r
               /\ if u64 2 =? 0 then r = 1 else 0 <= r < u64 (2 ^ 64 - 1).
Proof.
  assert (H : u64 (2 ^ 64 - 1) <> 0) by (vm_compute; discriminate).
  split; [exact H |].
  exact (ModulusPow_below_modulus (2 ^ 32) 2 (2 ^ 64 - 1) H).
Defined.

(** ** MillerRabin outside and inside its domain *)

(** X4: for [1 < n < 2 ^ 32] the first loop of [MillerRabin] ends, with [d]
    odd and [n - 1 = d * 2 ^ s]. *)
Theorem MillerRabin_odd_part (n : Z) :
  1 < n < 2 ^ 32 ->
  exists d s,
    MillerRabin_halve 32 (u32 (u64 n - 1)) 0 = ok (d, s)
    /\ n - 1 = d * 2 ^ s /\ d mod 2 = 1 /\ 0 <= s < 32.
Proof.
  intro Hn. rewrite u64_small by lia. rewrite u32_small by lia.
  destruct (MillerRabin_halve_spec 32 (n - 1) 0)
    as (d & k & Hh & Hd & Ho & Hk);
    [change (Z.of_nat 32) with 32; lia | lia | lia
     | change (Z.of_nat 32) with 32; lia |].
  exists d, k. rewrite Z.add_0_l in Hh. change (Z.of_nat 32) with 32 in Hk.
  auto.
Qed.

Lemma MillerRabin_odd_part_witness :
  1 < 97 < 2 ^ 32
  /\ exists d s,
       MillerRabin_halve 32 (u32 (u64 97 - 1)) 0 = ok (d, s)
       /\ 97 - 1 = d * 2 ^ s /\ d mod 2 = 1 /\ 0 <= s < 32.
Proof. split; [lia |]. apply (MillerRabin_odd_part 97). lia. Defined.

(** X5: when the low 32 bits of [n - 1] are 0, as for [n = 1], the first
    loop of [MillerRabin] never ends: [d] is 0 and stays even, whatever the
    number of turns allowed. *)
Theorem MillerRabin_loops_on_1 (n : Z) (g : list Z) (k : Z) :
  u32 (u64 n - 1) = 0 ->
  (forall fuel s, MillerRabin_halve fuel (u32 (u64 n - 1)) s = err OutOfFuel)
  /\ MillerRabin n g k = err OutOfFuel.
Proof.
  intro H. split.
  - intros fuel s. rewrite H. apply MillerRabin_halve_zero.
  - unfold MillerRabin. cbv zeta. rewrite H, MillerRabin_halve_zero.
    reflexivity.
Qed.

Lemma MillerRabin_loops_on_1_witness :
  u32 (u64 1 - 1) = 0
  /\ (forall fuel s,
         MillerRabin_halve fuel (u32 (u64 1 - 1)) s = err OutOfFuel)
  /\ MillerRabin 1 [2] 1 = err OutOfFuel.
Proof.
  split; [reflexivity |]. apply (MillerRabin_loops_on_1 1 [2] 1).
  reflexivity.
Defined.

(** X6: [MillerRabin(0, g, k)] with at least one guess divides by zero, in
    the first call of [ModulusPow]. *)
Theorem MillerRabin_divides_by_zero_on_0 (n : Z) (g : list Z) (k : Z) :
  u64 n = 0 -> 0 < u8 k <= Z.of_nat (length g) ->
  MillerRabin n g k = err DivisionByZero.
Proof.
  intros Hn Hk. unfold MillerRabin. cbv zeta. rewrite Hn.
  change (MillerRabin_halve 32 (u32 (0 - 1)) 0) with (ok (4294967295, 0)).
  cbn [bind fst snd].
  destruct (Z.to_nat (u8 k)) as [| k'] eqn:E; [lia |].
  cbn [MillerRabin_witnesses].
  destruct (read_ok g (Z.of_nat k') ltac:(lia)) as [a ->]. cbn [bind].
  rewrite ModulusPow_zero_modulus. reflexivity.
Qed.

Lemma MillerRabin_divides_by_zero_on_0_witness :
  u64 0 = 0 /\ 0 < u8 1 <= Z.of_nat (length [2])
  /\ MillerRabin 0 [2] 1 = err DivisionByZero.
Proof.
  assert (Hk : 0 < u8 1 <= Z.of_nat (length [2]))
    by (vm_compute; split; [reflexivity | discriminate]).
  split; [reflexivity |]. split; [exact Hk |].
  exact (MillerRabin_divides_by_zero_on_0 0 [2] 1 eq_refl Hk).
Defined.

(** X7: [IsPrime] calls [MillerRabin] only on odd numbers from 3 to
    [2 ^ 32 - 1], with as many guesses as [k] says: two functions that agree
    on those calls give the same [IsPrime]. *)
Theorem IsPrime_calls_MillerRabin_in_domain
  (MR MR' : Z -> list Z -> Z -> res bool) (n : Z) :
  (forall m g k,
      3 <= m < 2 ^ 32 -> m mod 2 = 1 -> k = Z.of_nat (length g) ->
      MR m g k = MR' m g k) ->
  IsPrime_with MR n = IsPrime_with MR' n.
Proof.
  intro H. unfold IsPrime_with.
  pose proof (u32_range n) as Hr. set (m := u32 n) in *. clearbody m.
  assert (Hbit : 0 <= m mod 2 < 2) by (apply Z.mod_pos_bound; lia).
  assert (Hdm : m = 2 * (m / 2) + m mod 2) by (apply Z.div_mod; lia).
  destruct (Z.eqb_spec (m mod 2) 0) as [| Ho]; [reflexivity |].
  destruct (Z.leb_spec m 1) as [| H1]; [reflexivity |].
  cbn [orb].
  repeat match goal with
         | |- context [if ?b then _ else _] => destruct b
         end;
    try reflexivity; apply H; try reflexivity; lia.
Qed.

Lemma IsPrime_calls_MillerRabin_in_domain_witness :
  (forall m g k,
      3 <= m < 2 ^ 32 -> m mod 2 = 1 -> k = Z.of_nat (length g) ->
      MillerRabin m g k
      = (fun m g k => if m <? 3 then ok true else MillerRabin m g k) m g k)
  /\ IsPrime_with MillerRabin 97
     = IsPrime_with
         (fun m g k => if m <? 3 then ok true else MillerRabin m g k) 97.
Proof.
  assert (H : forall m g k,
             3 <= m < 2 ^ 32 -> m mod 2 = 1 -> k = Z.of_nat (length g) ->
             MillerRabin m g k
             = (fun m g k => if m <? 3 then ok true else MillerRabin m g k)
                 m g k).
  { intros m g k Hm _ _. cbv beta.
    destruct (Z.ltb_spec m 3); [lia | reflexivity]. }
  split; [exact H |].
  exact (IsPrime_calls_MillerRabin_in_domain MillerRabin _ 97 H).
Defined.

(** ** FindLTP and the left-truncatable primes *)

(** X8: for every index from 1 to 2350 [FindLTP] returns a left-truncatable
    prime: a number of one to ten decimal digits that is prime together
    with every number left by removing digits from its left. *)
Theorem FindLTP_left_truncatable (n : Z) :
  1 <= n <= 2350 ->
  exists v d, FindLTP n = ok v /\ (1 <= d <= 10)%nat /\ left_truncatable d v.
Proof.
  intro Hn. destruct (FindLTP_in_ltps_32 n Hn) as (v & Hv & Hin).
  apply ltps_32_In in Hin as [_ (d & Hd & Hltp)]. eauto.
Qed.

Lemma FindLTP_left_truncatable_witness :
  1 <= 2350 <= 2350
  /\ exists v d, FindLTP 2350 = ok v /\ (1 <= d <= 10)%nat
                 /\ left_truncatable d v.
Proof. split; [lia |]. apply (FindLTP_left_truncatable 2350). lia. Defined.

(** X9: every left-truncatable prime below [2 ^ 32] is the result of
    [FindLTP] for an index from 1 to 2350. *)
Theorem FindLTP_complete (d : nat) (v : Z) :
  (1 <= d)%nat -> left_truncatable d v -> v < 2 ^ 32 ->
  exists n, 1 <= n <= 2350 /\ FindLTP n = ok v.
Proof.
  intros Hd Hv Hlt. apply ltps_32_in_FindLTP.
  now apply (left_truncatable_32 d).
Qed.

Lemma FindLTP_complete_witness :
  (1 <= 2)%nat /\ left_truncatable 2 13 /\ 13 < 2 ^ 32
  /\ exists n, 1 <= n <= 2350 /\ FindLTP n = ok 13.
Proof.
  split; [lia |]. split; [exact left_truncatable_13 |]. split; [lia |].
  apply (FindLTP_complete 2 13); [lia | exact left_truncatable_13 | lia].
Defined.

(** X10: [FindLTP(n)] is the left-truncatable prime number [n] in ascending
    order, for every index from 1 to 2350: the left-truncatable primes
    below it are the results for the indices below [n]. *)
Theorem FindLTP_rank (n v : Z) :
  1 <= n <= 2350 -> FindLTP n = ok v ->
  forall d w, left_truncatable (S d) w ->
              (w < v <-> exists m, 1 <= m < n /\ FindLTP m = ok w).
Proof.
  intros Hn Hv d w Hw. split.
  - intro Hlt.
    destruct (FindLTP_in_ltps_32 n Hn) as (v' & Hv' & Hin).
    rewrite Hv in Hv'. injection Hv' as <-.
    apply ltps_32_In in Hin as [Hv32 _].
    destruct (ltps_32_in_FindLTP w) as (m & Hm & Em).
    { apply (left_truncatable_32 (S d)); [lia | assumption | lia]. }
    exists m. split; [| assumption].
    destruct (Z.lt_trichotomy m n) as [Hmn | [-> | Hmn]]; [lia | |].
    + rewrite Hv in Em. injection Em as ->. lia.
    + pose proof (FindLTP_ascending n m v w ltac:(lia) Hmn ltac:(lia) Hv Em).
      lia.
  - intros (m & Hm & Em).
    apply (FindLTP_ascending m n w v); (assumption || lia).
Qed.

Lemma FindLTP_rank_witness :
  1 <= 5 <= 2350 /\ FindLTP 5 = ok 13
  /\ forall d w, left_truncatable (S d) w ->
                 (w < 13 <-> exists m, 1 <= m < 5 /\ FindLTP m = ok w).
Proof.
  assert (E : FindLTP 5 = ok 13) by (vm_compute; reflexivity).
  split; [lia |]. split; [exact E |].
  apply (FindLTP_rank 5 13); [lia | exact E].
Defined.

(** ** FindLTP on every index *)

(** X11: [FindLTP] returns a value exactly when the low 16 bits of its
    index are not 0; on index 0 it reads [LTP_Buf[-1]]. *)
Theorem FindLTP_returns_iff (n : Z) :
  ((exists v, FindLTP n = ok v) <-> u16 n <> 0)
  /\ (FindLTP n = err OutOfBounds <-> u16 n = 0).
Proof.
  pose proof (u16_range n) as Hr. rewrite <- (FindLTP_u16 n).
  destruct (Z.eq_dec (u16 n) 0) as [E | E].
  - rewrite E, FindLTP_0. split; split; try easy.
    intros [v Hv]. discriminate.
  - destruct (FindLTP_returns (u16 n) ltac:(lia)) as [v Hv]. rewrite Hv.
    split; split; try easy. eauto.
Qed.

(** X12: [FindLTP] returns 0 exactly for the indices above 2709: the search
    counts 2709 primes in all, and for a larger index the loop over the
    orders ends and the [return 0] after it is executed. *)
Theorem FindLTP_returns_0_iff (n : Z) : FindLTP n = ok 0 <-> 2709 < u16 n.
Proof.
  pose proof (u16_range n) as Hr. rewrite <- (FindLTP_u16 n).
  set (m := u16 n) in *. clearbody m.
  destruct (Z.le_gt_cases m 4) as [Hs | Hgt].
  - split; [| lia]. intro H.
    destruct (Z.eq_dec m 0) as [-> | H0].
    + rewrite FindLTP_0 in H. discriminate.
    + rewrite FindLTP_seed in H by lia.
      assert (E : m = 1 \/ m = 2 \/ m = 3 \/ m = 4) by lia.
      destruct E as [-> | [-> | [-> | ->]]]; discriminate.
  - rewrite FindLTP_run by lia. split.
    + intro H. destruct (Z.lt_ge_cases 2709 m) as [| Hle]; [assumption |].
      exfalso.
      destruct (drains_counted IsPrime 2709 search_fuel ltac:(lia)
                  first_locals drains_2709
                  ltac:(rewrite PrimesCount_first; lia) m
                  ltac:(rewrite PrimesCount_first; lia))
        as (num & Hrun & Hp).
      rewrite H in Hrun. injection Hrun as <-.
      rewrite IsPrime_0 in Hp. discriminate.
    + intro H. now apply (drains_zero IsPrime 2709 search_fuel _ drains_2709).
Qed.

(** X13: at every test of the innermost loop, in every call, the buffer has
    its [BUF_LENGTH] slots and the four cursors are within it. *)
Theorem FindLTP_cursors_in_bounds (n : Z) (c : locals) (t : tally) :
  visits n c t ->
  Z.of_nat (length (LTP_Buf c)) = BUF_LENGTH
  /\ 0 <= u c < BUF_LENGTH
  /\ 0 <= LTP_IndexProc c < BUF_LENGTH
  /\ 0 <= LTP_IndexFree c < BUF_LENGTH
  /\ 0 <= LTP_IndexOldFree c < BUF_LENGTH.
Proof.
  intro Hv. split.
  - destruct Hv as [_ Hr].
    apply (reaches_invariant IsPrime
             (fun c _ => Z.of_nat (length (LTP_Buf c)) = BUF_LENGTH) (u16 n))
      with (2 := Hr).
    + intros c1 t1 c2 Hl Hst.
      now rewrite (step_length IsPrime (u16 n) c1 c2 Hst).
    + reflexivity.
  - destruct (visits_cursors n c t Hv) as (Hf & Hp & Ho & Hu).
    rewrite Hf, Hp, Ho, Hu.
    repeat split; apply Z.mod_pos_bound; reflexivity.
Qed.

Lemma FindLTP_cursors_in_bounds_witness :
  visits 5 first_locals first_tally
  /\ Z.of_nat (length (LTP_Buf first_locals)) = BUF_LENGTH
  /\ 0 <= u first_locals < BUF_LENGTH
  /\ 0 <= LTP_IndexProc first_locals < BUF_LENGTH
  /\ 0 <= LTP_IndexFree first_locals < BUF_LENGTH
  /\ 0 <= LTP_IndexOldFree first_locals < BUF_LENGTH.
Proof.
  assert (Hv : visits 5 first_locals first_tally).
  { split; [vm_compute; reflexivity | apply reaches_here]. }
  split; [exact Hv |].
  exact (FindLTP_cursors_in_bounds 5 first_locals first_tally Hv).
Defined.

(** ** main *)

(** X14: [main] passes over the entries outside 1..2166 and prints the
    result of [FindLTP] on the first entry inside, which is a
    left-truncatable prime of at most nine digits. *)
Theorem main_prints_the_ltp_asked_for
  (skipped : list Z) (e : Z) (rest : list Z) :
  Forall (fun x => u32 x < 1 \/ 2166 < u32 x) skipped ->
  1 <= u32 e <= 2166 ->
  main (skipped ++ e :: rest) = FindLTP (u32 e)
  /\ exists v d, main (skipped ++ e :: rest) = ok v
                 /\ (1 <= d <= 9)%nat /\ left_truncatable d v.
Proof.
  intros Hs He. unfold main. rewrite (main_input_skips _ _ _ Hs He).
  cbn [bind]. split; [reflexivity |].
  destruct (FindLTP_in_ltps_32 (u32 e) ltac:(lia)) as (v & Hv & Hin).
  apply ltps_32_In in Hin as [_ (d & Hd & Hltp)].
  exists v, d. split; [exact Hv |]. split; [| exact Hltp].
  split; [lia |]. apply (left_truncatable_digits d 9 v Hltp).
  change (Z.of_nat 9) with 9. now apply (FindLTP_nine_digits (u32 e)).
Qed.

Lemma main_prints_the_ltp_asked_for_witness :
  Forall (fun x => u32 x < 1 \/ 2166 < u32 x) [0; 2167]
  /\ 1 <= u32 5 <= 2166
  /\ main ([0; 2167] ++ 5 :: []) = FindLTP (u32 5)
  /\ exists v d, main ([0; 2167] ++ 5 :: []) = ok v
                 /\ (1 <= d <= 9)%nat /\ left_truncatable d v.
Proof.
  assert (Hs : Forall (fun x => u32 x < 1 \/ 2166 < u32 x) [0; 2167]).
  { apply Forall_cons; [left; vm_compute; reflexivity |].
    apply Forall_cons; [right; vm_compute; reflexivity | apply Forall_nil]. }
  assert (He : 1 <= u32 5 <= 2166) by (vm_compute; split; discriminate).
  split; [exact Hs |]. split; [exact He |].
  exact (main_prints_the_ltp_asked_for [0; 2167] 5 [] Hs He).
Defined.

(** X15: whatever is read, a number [main] prints is the result of
    [FindLTP] on an entry within 1..2166, and a left-truncatable prime of at
    most nine digits. *)
Theorem main_prints_only_ltps (entries : list Z) (v : Z) :
  main entries = ok v ->
  exists e d, In e entries /\ 1 <= u32 e <= 2166 /\ FindLTP (u32 e) = ok v
              /\ (1 <= d <= 9)%nat /\ left_truncatable d v.
Proof.
  unfold main. intro H.
  destruct (main_input entries) as [num | f] eqn:E; [| discriminate].
  cbn [bind] in H.
  destruct (main_input_in_range entries num E) as [Hr (e & Hin & ->)].
  destruct (FindLTP_in_ltps_32 (u32 e) ltac:(lia)) as (v' & Hv' & Hl).
  rewrite H in Hv'. injection Hv' as <-.
  apply ltps_32_In in Hl as [_ (d & Hd & Hltp)].
  exists e, d. repeat split; try assumption; try lia.
  apply (left_truncatable_digits d 9 v Hltp).
  change (Z.of_nat 9) with 9. now apply (FindLTP_nine_digits (u32 e)).
Qed.

Lemma main_prints_only_ltps_witness :
  main [0; 5] = ok 13
  /\ exists e d, In e [0; 5] /\ 1 <= u32 e <= 2166 /\ FindLTP (u32 e) = ok 13
                 /\ (1 <= d <= 9)%nat /\ left_truncatable d 13.
Proof.
  assert (H : main [0; 5] = ok 13) by (vm_compute; reflexivity).
  split; [exact H |]. exact (main_prints_only_ltps [0; 5] 13 H).
Defined.

(** ** The digit and the power of ten in the search *)

(** X16: at every test of the innermost loop of [FindLTP], in every call,
    the order and the digit [i] are between 1 and 9 and [PwVal] is
    [10 ^ order], which [Power] computes without wrapping. *)
Theorem FindLTP_digit_and_power (n : Z) (c : locals) (t : tally) :
  visits n c t ->
  1 <= order c <= 9 /\ 1 <= i c <= 9 /\ PwVal c = 10 ^ order c.
Proof.
  intros [_ Hr].
  apply (reaches_invariant IsPrime
           (fun c _ => 1 <= order c <= 9 /\ 1 <= i c <= 9
                       /\ PwVal c = 10 ^ order c) (u16 n))
    with (2 := Hr).
  - intros c1 t1 c2 Hinv Hst.
    now apply (step_digit_power IsPrime (u16 n) c1 c2).
  - cbn. repeat split; lia.
Qed.

Lemma FindLTP_digit_and_power_witness :
  visits 6 second_locals (follow first_locals second_locals first_tally)
  /\ 1 <= order second_locals <= 9 /\ 1 <= i second_locals <= 9
  /\ PwVal second_locals = 10 ^ order second_locals.
Proof.
  assert (Hv : visits 6 second_locals
                 (follow first_locals second_locals first_tally)).
  { split; [vm_compute; reflexivity |].
    change (u16 6) with 6.
    apply (advance_reaches IsPrime 6 1). vm_compute. reflexivity. }
  split; [exact Hv |].
  exact (FindLTP_digit_and_power 6 second_locals _ Hv).
Defined.
